(** * CDN edge selection: registry, distance model, selection, health loop

    A shallow embedding of [cdn.py].  Python values are modelled as the
    interpreter has them: [float] is IEEE binary64 (Rocq's primitive
    floats), [int] is unbounded ([Z]), a [dict] keeps insertion order, and
    [ServerInfo] objects live in a store and are shared by reference. *)

From Stdlib Require Import ZArith Floats List String Ascii Bool Lia.
From Stdlib Require Import DecimalString.
Import ListNotations.

Set Implicit Arguments.

(* ================================================================== *)
(** * Part I: the model                                                *)
(* ================================================================== *)

(** ** Exceptions *)

Inductive exn : Type :=
| KeyError (key : string)
| ValueError
| OverflowError
| ZeroDivisionError
| AttributeError (name : string).

Inductive result (A : Type) : Type :=
| Ok (a : A)
| Raise (e : exn).
Arguments Ok {A} a.
Arguments Raise {A} e.

Definition rbind {A B} (r : result A) (k : A -> result B) : result B :=
  match r with
  | Ok a => k a
  | Raise e => Raise e
  end.

Declare Scope res_scope.
Delimit Scope res_scope with res.
Notation "x <-- r ;; k" := (rbind r (fun x => k))
  (at level 61, r at next level, right associativity) : res_scope.

(** ** Numbers: Python [int] and [float] *)

Inductive pynum : Type :=
| PyInt (z : Z)
| PyFloat (f : float).

(** Exact value of a number, scaled by [2^1074] so that every finite
    binary64 value is an integer. *)
Inductive xval : Type :=
| NegInf
| Fin (v : Z)
| PosInf.

Definition scale : Z := 1074.

Definition SFval (s : spec_float) : option xval :=
  match s with
  | S754_nan => None
  | S754_infinity true => Some NegInf
  | S754_infinity false => Some PosInf
  | S754_zero _ => Some (Fin 0)
  | S754_finite sg m e => Some (Fin (cond_Zopp sg (Zpos m * 2 ^ (e + scale))))
  end.

Definition pyval (x : pynum) : option xval :=
  match x with
  | PyInt z => Some (Fin (z * 2 ^ scale))
  | PyFloat f => SFval (Prim2SF f)
  end.

Definition xcompare (a b : xval) : comparison :=
  match a, b with
  | NegInf, NegInf => Eq
  | NegInf, _ => Lt
  | _, NegInf => Gt
  | PosInf, PosInf => Eq
  | PosInf, _ => Gt
  | _, PosInf => Lt
  | Fin u, Fin v => Z.compare u v
  end.

Definition cmp_is (c : comparison) (o : option comparison) : bool :=
  match o with
  | Some c' => match c, c' with
               | Eq, Eq | Lt, Lt | Gt, Gt => true
               | _, _ => false
               end
  | None => false
  end.

(** [int] against [float] is compared by exact value (CPython does not
    round the integer first). *)
Definition mixed_compare (x y : pynum) : option comparison :=
  match pyval x, pyval y with
  | Some a, Some b => Some (xcompare a b)
  | _, _ => None
  end.

(** [x < y] *)
Definition py_lt (x y : pynum) : bool :=
  match x, y with
  | PyInt a, PyInt b => (a <? b)%Z
  | PyFloat a, PyFloat b => (a <? b)%float
  | _, _ => cmp_is Lt (mixed_compare x y)
  end.

(** [x == y] *)
Definition py_eq (x y : pynum) : bool :=
  match x, y with
  | PyInt a, PyInt b => (a =? b)%Z
  | PyFloat a, PyFloat b => (a =? b)%float
  | _, _ => cmp_is Eq (mixed_compare x y)
  end.

(** [x > y] *)
Definition py_gt (x y : pynum) : bool := py_lt y x.

(** [x <= y] *)
Definition py_le (x y : pynum) : bool :=
  match x, y with
  | PyInt a, PyInt b => (a <=? b)%Z
  | PyFloat a, PyFloat b => (a <=? b)%float
  | _, _ => cmp_is Lt (mixed_compare x y) || cmp_is Eq (mixed_compare x y)
  end.

(** Conversion of an [int] operand to [float]: round to nearest even,
    [OverflowError] when the result would not be finite. *)
Definition float_of_int (z : Z) : result float :=
  match binary_normalize prec emax z 0 false with
  | S754_infinity _ => Raise OverflowError
  | s => Ok (SF2Prim s)
  end.

(** [x - y] *)
Definition py_sub (x y : pynum) : result pynum :=
  match x, y with
  | PyInt a, PyInt b => Ok (PyInt (a - b))
  | PyFloat a, PyFloat b => Ok (PyFloat (a - b))
  | PyFloat a, PyInt b =>
      (fb <-- float_of_int b ;; Ok (PyFloat (a - fb)))%res
  | PyInt a, PyFloat b =>
      (fa <-- float_of_int a ;; Ok (PyFloat (fa - b)))%res
  end.

(** [max(a, b)]: the first argument is kept unless the second is
    strictly greater. *)
Definition py_max (a b : pynum) : pynum :=
  if py_gt b a then b else a.

(** [str(n)] for an [int]. *)
Definition str_int (z : Z) : string := NilZero.string_of_int (Z.to_int z).

(** ** Dictionaries (insertion ordered) *)

Definition dict (V : Type) : Type := list (string * V).

Fixpoint dict_get {V} (k : string) (d : dict V) : option V :=
  match d with
  | [] => None
  | (k', v) :: d' => if String.eqb k k' then Some v else dict_get k d'
  end.

(** [d[k] = v]: an existing key keeps its position, a new key goes last. *)
Fixpoint dict_set {V} (k : string) (v : V) (d : dict V) : dict V :=
  match d with
  | [] => [(k, v)]
  | (k', v') :: d' =>
      if String.eqb k k' then (k', v) :: d' else (k', v') :: dict_set k v d'
  end.

(** [del d[k]] *)
Fixpoint dict_del {V} (k : string) (d : dict V) : dict V :=
  match d with
  | [] => []
  | (k', v') :: d' =>
      if String.eqb k k' then d' else (k', v') :: dict_del k d'
  end.

Definition dict_mem {V} (k : string) (d : dict V) : bool :=
  match dict_get k d with
  | Some _ => true
  | None => false
  end.

Definition dict_keys {V} (d : dict V) : list string := map fst d.
Definition dict_values {V} (d : dict V) : list V := map snd d.

(** [d[k]] as an expression *)
Definition getitem {V} (d : dict V) (k : string) : result V :=
  match dict_get k d with
  | Some v => Ok v
  | None => Raise (KeyError k)
  end.

(** ** ServerInfo *)

Definition Coordinate : Type := dict float.

(** The field [last_health_check] is annotated [float] with default [0];
    it is only ever read as the right operand of a float subtraction,
    where [0] is [0.0]. *)
Record ServerInfo : Type := {
  server_id : string;
  host : string;
  port : Z;
  location : Coordinate;
  health_score : pynum;
  last_health_check : float;
  total_requests : Z;
  error_count : Z
}.

Definition set_health_score (v : pynum) (s : ServerInfo) : ServerInfo :=
  {| server_id := server_id s; host := host s; port := port s;
     location := location s; health_score := v;
     last_health_check := last_health_check s;
     total_requests := total_requests s; error_count := error_count s |}.

Definition set_last_health_check (t : float) (s : ServerInfo) : ServerInfo :=
  {| server_id := server_id s; host := host s; port := port s;
     location := location s; health_score := health_score s;
     last_health_check := t;
     total_requests := total_requests s; error_count := error_count s |}.

Definition add_counters (dreq derr : Z) (s : ServerInfo) : ServerInfo :=
  {| server_id := server_id s; host := host s; port := port s;
     location := location s; health_score := health_score s;
     last_health_check := last_health_check s;
     total_requests := total_requests s + dreq;
     error_count := error_count s + derr |}.

(** ** Built-ins that are not part of the source

    The [math] module, the float power operator and float formatting are
    provided by the interpreter and the platform's libm. *)
Class Builtins : Type := {
  math_radians : float -> result float;
  math_sin : float -> result float;
  math_cos : float -> result float;
  math_sqrt : float -> result float;
  math_atan2 : float -> float -> result float;
  float_pow : float -> Z -> result float;
  str_float : float -> string
}.

Definition str_num `{Builtins} (x : pynum) : string :=
  match x with
  | PyInt z => str_int z
  | PyFloat f => str_float f
  end.

(** ** GeolocationService *)

Section Geolocation.
Context `{Builtins}.
Local Open Scope res_scope.

Definition R : float := 6371%float.

Definition calculate_network_distance (loc1 loc2 : Coordinate)
  : result float :=
  v1 <-- getitem loc1 "lat" ;; lat1 <-- math_radians v1 ;;
  v2 <-- getitem loc1 "lon" ;; lon1 <-- math_radians v2 ;;
  v3 <-- getitem loc2 "lat" ;; lat2 <-- math_radians v3 ;;
  v4 <-- getitem loc2 "lon" ;; lon2 <-- math_radians v4 ;;
  let dlat := (lat2 - lat1)%float in
  let dlon := (lon2 - lon1)%float in
  s1 <-- math_sin (dlat / 2)%float ;;
  p1 <-- float_pow s1 2 ;;
  c1 <-- math_cos lat1 ;;
  c2 <-- math_cos lat2 ;;
  s2 <-- math_sin (dlon / 2)%float ;;
  p2 <-- float_pow s2 2 ;;
  let a := (p1 + c1 * c2 * p2)%float in
  q1 <-- math_sqrt a ;;
  q2 <-- math_sqrt (1 - a)%float ;;
  t <-- math_atan2 q1 q2 ;;
  let c := (2 * t)%float in
  Ok (R * c)%float.
End Geolocation.

(** ** The store and the state monad *)

Definition ref : Type := nat.

(** [heap] holds every [ServerInfo] object by address, [servers] is the
    [self.servers] dictionary of the management service, [clock] lists
    the values successive calls of [time.time()] return. *)
Record World : Type := {
  heap : ref -> ServerInfo;
  next_ref : ref;
  servers : dict ref;
  clock : nat -> float;
  ticks : nat
}.

Definition M (A : Type) : Type := World -> result A * World.

Definition ret {A} (a : A) : M A := fun w => (Ok a, w).

Definition bind {A B} (m : M A) (k : A -> M B) : M B :=
  fun w =>
    match m w with
    | (Ok a, w') => k a w'
    | (Raise e, w') => (Raise e, w')
    end.

Definition lift {A} (r : result A) : M A := fun w => (r, w).

(** [try: body except Exception as e: handler] *)
Definition try_except {A} (body : M A) (handler : exn -> M A) : M A :=
  fun w =>
    match body w with
    | (Ok a, w') => (Ok a, w')
    | (Raise e, w') => handler e w'
    end.

Declare Scope m_scope.
Delimit Scope m_scope with M.
Notation "x <- m ;; k" := (bind m (fun x => k))
  (at level 61, m at next level, right associativity) : m_scope.
Notation "m ;;; k" := (bind m (fun _ => k))
  (at level 61, right associativity) : m_scope.

Definition upd (h : ref -> ServerInfo) (a : ref) (s : ServerInfo)
  : ref -> ServerInfo :=
  fun b => if Nat.eqb b a then s else h b.

Definition deref (a : ref) : M ServerInfo := fun w => (Ok (heap w a), w).

Definition modify_obj (a : ref) (f : ServerInfo -> ServerInfo) : M unit :=
  fun w =>
    (Ok tt, {| heap := upd (heap w) a (f (heap w a)); next_ref := next_ref w;
               servers := servers w; clock := clock w; ticks := ticks w |}).

Definition get_servers : M (dict ref) := fun w => (Ok (servers w), w).

Definition put_servers (d : dict ref) : M unit :=
  fun w =>
    (Ok tt, {| heap := heap w; next_ref := next_ref w; servers := d;
               clock := clock w; ticks := ticks w |}).

(** Object construction: [ServerInfo(...)] *)
Definition new_obj (s : ServerInfo) : M ref :=
  fun w =>
    (Ok (next_ref w),
     {| heap := upd (heap w) (next_ref w) s; next_ref := S (next_ref w);
        servers := servers w; clock := clock w; ticks := ticks w |}).

(** [time.time()] *)
Definition time_time : M float :=
  fun w =>
    (Ok (clock w (ticks w)),
     {| heap := heap w; next_ref := next_ref w; servers := servers w;
        clock := clock w; ticks := S (ticks w) |}).

(** ** CDNManagementService *)

Section Management.
Context `{Builtins}.
Local Open Scope m_scope.

(** [__init__]: an empty registry. *)
Definition init_world (h : ref -> ServerInfo) (c : nat -> float) : World :=
  {| heap := h; next_ref := 0; servers := []; clock := c; ticks := 0 |}.

Definition register_server (server_info : ref) : M unit :=
  s <- deref server_info ;;
  d <- get_servers ;;
  put_servers (dict_set (server_id s) server_info d).

Definition deregister_server (id : string) : M unit :=
  d <- get_servers ;;
  if dict_mem id d then put_servers (dict_del id d) else ret tt.

Definition healthy (s : ServerInfo) : bool :=
  py_gt (health_score s) (PyInt 50).

(** The sort key of the selection: a tuple [(distance, 100 - health)]. *)
Definition key : Type := float * pynum.

Definition selection_key (client_location : Coordinate) (s : ServerInfo)
  : result key :=
  (d <-- calculate_network_distance client_location (location s) ;;
   k <-- py_sub (PyInt 100) (health_score s) ;;
   Ok (d, k))%res.

(** Tuple [<]: the first position where the items are not [==]
    decides. *)
Definition key_lt (k1 k2 : key) : bool :=
  if negb (fst k1 =? fst k2)%float then (fst k1 <? fst k2)%float
  else if negb (py_eq (snd k1) (snd k2)) then py_lt (snd k1) (snd k2)
  else false.

(** Tuple [<=]. *)
Definition key_le (k1 k2 : key) : bool :=
  if negb (fst k1 =? fst k2)%float then (fst k1 <=? fst k2)%float
  else if negb (py_eq (snd k1) (snd k2)) then py_le (snd k1) (snd k2)
  else true.

(** The loop of [min(iterable, key=...)]: a later item replaces the
    current one only when its key is strictly smaller. *)
Fixpoint min_loop {A} (kf : A -> result key) (best : A) (bk : key)
  (rest : list A) : result A :=
  match rest with
  | [] => Ok best
  | x :: rest' =>
      (k <-- kf x ;;
       if key_lt k bk then min_loop kf x k rest'
       else min_loop kf best bk rest')%res
  end.

Definition min_by {A} (kf : A -> result key) (l : list A)
  : result (option A) :=
  match l with
  | [] => Ok None
  | x :: rest =>
      (k <-- kf x ;; b <-- min_loop kf x k rest ;; Ok (Some b))%res
  end.

Definition healthy_servers (w : World) : list ref :=
  filter (fun a => healthy (heap w a)) (dict_values (servers w)).

Definition select_optimal_server (client_location : Coordinate)
  : M (option ref) :=
  fun w =>
    match healthy_servers w with
    | [] => (Ok None, w)
    | hs =>
        (min_by (fun a => selection_key client_location (heap w a)) hs, w)
    end.

(** The body of the [for] loop of [health_check], for one server. *)
Definition update_health (server : ref) (current_time : float) : M unit :=
  s <- deref server ;;
  if py_gt (PyFloat (current_time - last_health_check s)%float) (PyInt 30)
  then
    x <- lift (py_sub (health_score s) (PyInt (error_count s * 10))) ;;
    modify_obj server (set_health_score (py_max (PyInt 0) x)) ;;;
    modify_obj server (set_last_health_check current_time)
  else ret tt.

Definition check_server (server : ref) : M unit :=
  try_except
    (current_time <- time_time ;; update_health server current_time)
    (fun _ => ret tt).

Fixpoint for_each {A} (l : list A) (body : A -> M unit) : M unit :=
  match l with
  | [] => ret tt
  | x :: l' => body x ;;; for_each l' body
  end.

(** One round of the [while True] loop, up to the [sleep].  The body has
    no [await], so a round runs without interleaving; the scheduling of
    the task ([asyncio.create_task], [asyncio.sleep]) and the calls of
    [logging] are not part of the model. *)
Definition health_check_pass : M unit :=
  d <- get_servers ;;
  for_each (dict_values d) check_server.

(** [n] rounds of the loop. *)
Fixpoint health_check (n : nat) : M unit :=
  match n with
  | O => ret tt
  | S n' => health_check_pass ;;; health_check n'
  end.

(** ** Building a record and registering it

    [ServerInfo(server_id=..., host=..., port=..., location=...,
    health_score=100.0)]: the remaining fields of the dataclass take
    their defaults. *)
Definition default_server_info (id hst : string) (prt : Z)
  (loc : Coordinate) : ServerInfo :=
  {| server_id := id; host := hst; port := prt; location := loc;
     health_score := PyFloat 100; last_health_check := 0%float;
     total_requests := 0; error_count := 0 |}.

(** [register_server(ServerInfo(server_id=..., host=..., port=...,
    location=..., health_score=100.0))]: a caller that has a host and a
    port builds the record and hands it to the registry. *)
Definition register_new_record (id hst : string) (prt : Z)
  (loc : Coordinate) : M unit :=
  server_info <- new_obj (default_server_info id hst prt loc) ;;
  register_server server_info.

(** ** ContentServer.__init__

    [obj.name] on an instance whose attributes are [attrs]. *)
Definition getattr {V} (attrs : dict V) (name : string) : result V :=
  match dict_get name attrs with
  | Some v => Ok v
  | None => Raise (AttributeError name)
  end.

(** The body of the constructor holds two comments and then the call
    [ServerInfo(server_id=server_id, host=self.host, port=self.port, ...)].
    Nothing has assigned an attribute of [self] at that point and the class
    declares none, so the keyword arguments, evaluated from left to right,
    stop at [self.host]. *)
Definition ContentServer_init (id : string) (loc : Coordinate) : M unit :=
  hst <- lift (getattr ([] : dict string) "host") ;;
  prt <- lift (getattr ([] : dict Z) "port") ;;
  server_info <- new_obj (default_server_info id hst prt loc) ;;
  register_server server_info.

(** ** CDNMetricsExporter *)

Definition dquote : string := String (ascii_of_nat 34) EmptyString.

Definition metric_line (name id value : string) : string :=
  ("cdn_server_" ++ name ++ "{server_id=" ++ dquote ++ id ++ dquote ++ "} "
     ++ value)%string.

Definition server_metrics (id : string) (s : ServerInfo) : list string :=
  [ metric_line "health" id (str_num (health_score s));
    metric_line "requests" id (str_int (total_requests s));
    metric_line "errors" id (str_int (error_count s)) ].

Definition newline : string := String (ascii_of_nat 10) EmptyString.

Fixpoint metrics_loop (h : ref -> ServerInfo) (items : dict ref)
  : list string :=
  match items with
  | [] => []
  | (id, a) :: items' => server_metrics id (h a) ++ metrics_loop h items'
  end.

Definition generate_metrics : M string :=
  fun w => (Ok (String.concat newline (metrics_loop (heap w) (servers w))), w).
End Management.

(** [text.split(sep)] for a one-character separator, and the test that a
    string is free of that character. *)
Fixpoint split_on (c : ascii) (s : string) : list string :=
  match s with
  | EmptyString => [EmptyString]
  | String x s' =>
      if Ascii.eqb x c then EmptyString :: split_on c s'
      else match split_on c s' with
           | [] => [String x EmptyString]
           | l :: ls => String x l :: ls
           end
  end.


(** The comparisons of the two components of a pair of keys. *)
Definition dcmp (k1 k2 : key) : option comparison :=
  mixed_compare (PyFloat (fst k1)) (PyFloat (fst k2)).

Definition hcmp (k1 k2 : key) : option comparison :=
  mixed_compare (snd k1) (snd k2).

(** ** Vocabulary of the float lemmas *)

(** A finite binary64 value in canonical form: 53 mantissa bits, or the
    least exponent. *)
Definition canon (m : positive) (e : Z) : Prop :=
  (-1074 <= e <= 971 /\ Zpos m < 2 ^ 53 /\
   (e = -1074 \/ 2 ^ 52 <= Zpos m))%Z.

Definition SFsign_is (sg : bool) (r : spec_float) : bool :=
  match r with
  | S754_zero s | S754_infinity s | S754_finite s _ _ => Bool.eqb s sg
  | S754_nan => false
  end.

Definition SFpositive (r : spec_float) : bool :=
  match r with
  | S754_finite false _ _ | S754_infinity false => true
  | _ => false
  end.

(** [self.servers.get(id)], dereferenced. *)
Definition get_server (id : string) (w : World) : option ServerInfo :=
  option_map (heap w) (dict_get id (servers w)).

(** ** Fixtures used to run the model on concrete inputs *)

(** A stand-in for the interpreter's built-ins (a flat map projection:
    the haversine terms are replaced by their small-angle forms). *)
Definition stub_builtins : Builtins :=
  {| math_radians := fun x => Ok (x / 64)%float;
     math_sin := fun x => Ok x;
     math_cos := fun _ => Ok 1%float;
     math_sqrt := fun x => if (x <? 0)%float then Raise ValueError
                           else Ok (sqrt x);
     math_atan2 := fun y _ => Ok y;
     float_pow := fun x _ => Ok (x * x)%float;
     str_float := fun f => if (f =? 100)%float then "100.0"%string
                           else "?"%string |}.

Definition coord (lat lon : float) : Coordinate :=
  [("lat"%string, lat); ("lon"%string, lon)].

Definition new_york : Coordinate := coord 40.75 (-74).
Definition los_angeles : Coordinate := coord 34 (-118.25).
Definition san_francisco : Coordinate := coord 37.75 (-122.5).

Definition blank : ServerInfo :=
  {| server_id := ""; host := ""; port := 0; location := [];
     health_score := PyInt 0; last_health_check := 0%float;
     total_requests := 0; error_count := 0 |}.

(** The clock of the fixtures: reading [n] is [1000 * (n + 1)] seconds. *)
Definition sample_clock (n : nat) : float :=
  SF2Prim (binary_normalize prec emax (1000 * Z.of_nat (S n)) 0 false).

Definition run {A} (m : M A) (w : World) : World := snd (m w).

Definition world0 : World := init_world (fun _ => blank) sample_clock.

Definition world3 : World :=
  run (register_new_record "sfo" "10.0.0.3" 8080 san_francisco)
    (run (register_new_record "lax" "10.0.0.2" 8080 los_angeles)
       (run (register_new_record "nyc" "10.0.0.1" 8080 new_york) world0)).

(** [world3] after the New York server has counted ten errors. *)
Definition world3_errors : World :=
  run (modify_obj 0 (add_counters 25 10)) world3.



(** ** The health check seen from one record *)

(** What one visit of the loop body makes of the record it visits, given
    the value read from the clock. *)
Definition checked (s : ServerInfo) (t : float) : ServerInfo :=
  if py_gt (PyFloat (t - last_health_check s)%float) (PyInt 30) then
    match py_sub (health_score s) (PyInt (error_count s * 10)) with
    | Ok x => set_last_health_check t (set_health_score (py_max (PyInt 0) x) s)
    | Raise _ => s
    end
  else s.

(** [clamp(x, lo, hi)] as the specification of [updateHealth] words it. *)
Definition spec_clamp (x lo hi : pynum) : pynum :=
  if py_lt x lo then lo else if py_lt hi x then hi else x.

(** ** Operations on the registry and reachable states *)

(** Modelled from the spec: the counter-update interface of the
    request-serving collaborator, which only ever increments
    [total_requests] and [error_count] of a record. *)
Definition record_traffic (a : ref) (dreq derr : Z) : M unit :=
  modify_obj a (add_counters dreq derr).

Inductive op : Type :=
| OpNewServer (id hst : string) (prt : Z) (loc : Coordinate)
| OpRegister (a : ref)
| OpDeregister (id : string)
| OpHealthPass
| OpSelect (loc : Coordinate)
| OpMetrics
| OpTraffic (a : ref) (dreq derr : Z).

Definition valid_op (w : World) (o : op) : Prop :=
  match o with
  | OpRegister a => (a < next_ref w)%nat
  | OpTraffic a dreq derr =>
      (a < next_ref w)%nat /\ (0 <= dreq)%Z /\ (0 <= derr)%Z
  | _ => True
  end.

Definition step `{Builtins} (o : op) (w : World) : World :=
  match o with
  | OpNewServer id hst prt loc => run (register_new_record id hst prt loc) w
  | OpRegister a => run (register_server a) w
  | OpDeregister id => run (deregister_server id) w
  | OpHealthPass => run health_check_pass w
  | OpSelect loc => run (select_optimal_server loc) w
  | OpMetrics => run generate_metrics w
  | OpTraffic a dreq derr => run (record_traffic a dreq derr) w
  end.

Inductive reachable `{Builtins} : World -> Prop :=
| reach_init (h : ref -> ServerInfo) (c : nat -> float) :
    reachable (init_world h c)
| reach_step (w : World) (o : op) :
    reachable w -> valid_op w o -> reachable (step o w).

(** The scores a record created with [health_score=100.0] can take. *)
Definition score_values : list pynum :=
  [ PyInt 0; PyFloat 10; PyFloat 20; PyFloat 30; PyFloat 40; PyFloat 50;
    PyFloat 60; PyFloat 70; PyFloat 80; PyFloat 90; PyFloat 100 ].

Definition pynum_eqb (x y : pynum) : bool :=
  match x, y with
  | PyInt a, PyInt b => (a =? b)%Z
  | PyFloat a, PyFloat b => PrimFloat.Leibniz.eqb a b
  | _, _ => false
  end.

Definition score_okb (x : pynum) : bool := existsb (pynum_eqb x) score_values.

(** The table behind the small cases of the score update: from every
    value of [score_values] and every error count up to [12] the update
    lands in [score_values] again. *)
Definition score_table_ok : bool :=
  forallb
    (fun h =>
       forallb
         (fun e =>
            match py_sub h (PyInt (Z.of_nat e * 10)) with
            | Ok x => score_okb (py_max (PyInt 0) x)
            | Raise _ => true
            end)
         (seq 0 13))
    score_values.

(** A record registered with a score above [100]. *)
Definition overscored : World :=
  run (register_server 0)
    (run (new_obj
            {| server_id := "big"; host := "10.0.0.9"; port := 8080;
               location := new_york; health_score := PyFloat 150;
               last_health_check := 0%float; total_requests := 0;
               error_count := 0 |}) world0).

(** ** Invariants of reachable states *)

Definition record_ok (s : ServerInfo) : Prop :=
  In (health_score s) score_values /\ (0 <= error_count s)%Z /\
  (last_health_check s =? last_health_check s)%float = true.

Definition state_ok (w : World) : Prop :=
  (forall a, (a < next_ref w)%nat -> record_ok (heap w a)) /\
  (forall a, In a (dict_values (servers w)) -> (a < next_ref w)%nat).

Definition time_mono (w w' : World) : Prop :=
  forall a, (a < next_ref w)%nat ->
            (last_health_check (heap w a)
               <=? last_health_check (heap w' a))%float = true.

Definition world_checked : World :=
  @step stub_builtins OpHealthPass
    (@step stub_builtins (OpTraffic 0 25 10)
       (@step stub_builtins
          (OpNewServer "nyc" "10.0.0.1" 8080 new_york) world0)).

(** Every identifier is bound once, to a record that carries it. *)
Definition registry_ok (w : World) : Prop :=
  NoDup (dict_keys (servers w)) /\
  forall k a, In (k, a) (servers w) ->
              server_id (heap w a) = k /\ (a < next_ref w)%nat.

(** ** Vocabulary of the further properties *)

(** The fields of a record that the health check does not write. *)
Definition same_static (s s' : ServerInfo) : Prop :=
  server_id s' = server_id s /\ host s' = host s /\ port s' = port s /\
  location s' = location s /\ total_requests s' = total_requests s /\
  error_count s' = error_count s.

(** The table behind the small cases of the decay: from every value of
    [score_values] and every error count up to [12] the updated score is
    at most the score before. *)
Definition score_table_decay : bool :=
  forallb
    (fun h =>
       forallb
         (fun e =>
            match py_sub h (PyInt (Z.of_nat e * 10)) with
            | Ok x => py_le (py_max (PyInt 0) x) h
            | Raise _ => true
            end)
         (seq 0 13))
    score_values.

Definition score_mono (w w' : World) : Prop :=
  forall a, (a < next_ref w)%nat ->
            py_le (health_score (heap w' a)) (health_score (heap w a)) = true.

(** A key both of whose components are numbers (no NaN). *)
Definition key_num (k : key) : Prop :=
  pyval (PyFloat (fst k)) <> None /\ pyval (snd k) <> None.

(** A client location without a latitude. *)
Definition only_lon : Coordinate := [("lon"%string, (-74)%float)].

(* ================================================================== *)
(** * Part II: properties                                              *)
(* ================================================================== *)

(** ** Exact values and comparisons *)

Lemma xcompare_antisym (a b : xval) :
  xcompare b a = CompOpp (xcompare a b).
Proof.
  destruct a, b; simpl; try reflexivity. apply Z.compare_antisym.
Qed.

Lemma xcompare_refl (a : xval) : xcompare a a = Eq.
Proof. destruct a; simpl; auto using Z.compare_refl. Qed.

Lemma xcompare_lt_trans (a b c : xval) :
  xcompare a b = Lt -> xcompare b c = Lt -> xcompare a c = Lt.
Proof.
  destruct a, b, c; simpl; try congruence.
  rewrite !Z.compare_lt_iff. lia.
Qed.

Lemma xcompare_eq_lt (a b c : xval) :
  xcompare a b = Eq -> xcompare b c = Lt -> xcompare a c = Lt.
Proof.
  destruct a, b, c; simpl; try congruence.
  rewrite Z.compare_eq_iff, !Z.compare_lt_iff. lia.
Qed.

Lemma xcompare_lt_eq (a b c : xval) :
  xcompare a b = Lt -> xcompare b c = Eq -> xcompare a c = Lt.
Proof.
  destruct a, b, c; simpl; try congruence.
  rewrite Z.compare_eq_iff, !Z.compare_lt_iff. lia.
Qed.

Lemma xcompare_eq_trans (a b c : xval) :
  xcompare a b = Eq -> xcompare b c = Eq -> xcompare a c = Eq.
Proof.
  destruct a, b, c; simpl; try congruence.
  rewrite !Z.compare_eq_iff. lia.
Qed.

Lemma mixed_compare_antisym (x y : pynum) :
  mixed_compare y x = option_map CompOpp (mixed_compare x y).
Proof.
  unfold mixed_compare. destruct (pyval x), (pyval y); simpl; auto.
  now rewrite xcompare_antisym.
Qed.

(** ** Dictionaries *)

Lemma dict_get_set_same {V} (k : string) (v : V) (d : dict V) :
  dict_get k (dict_set k v d) = Some v.
Proof.
  induction d as [|[k' v'] d IH]; simpl.
  - now rewrite String.eqb_refl.
  - destruct (String.eqb k k') eqn:E; simpl; rewrite E; auto.
Qed.

Lemma dict_get_set_other {V} (k k0 : string) (v : V) (d : dict V) :
  k0 <> k -> dict_get k0 (dict_set k v d) = dict_get k0 d.
Proof.
  intros Hne. induction d as [|[k' v'] d IH]; simpl.
  - destruct (String.eqb k0 k) eqn:E; auto.
    apply String.eqb_eq in E. contradiction.
  - destruct (String.eqb k k') eqn:E; simpl.
    + apply String.eqb_eq in E. subst k'.
      destruct (String.eqb k0 k) eqn:E0; auto.
      apply String.eqb_eq in E0. contradiction.
    + now rewrite IH.
Qed.

Lemma dict_keys_set_present {V} (k : string) (v : V) (d : dict V) :
  dict_mem k d = true -> dict_keys (dict_set k v d) = dict_keys d.
Proof.
  unfold dict_mem. induction d as [|[k' v'] d IH]; simpl.
  - discriminate.
  - destruct (String.eqb k k') eqn:E; simpl; auto.
    intros Hm. now rewrite IH.
Qed.

Lemma dict_keys_set_absent {V} (k : string) (v : V) (d : dict V) :
  dict_mem k d = false -> dict_keys (dict_set k v d) = dict_keys d ++ [k].
Proof.
  unfold dict_mem. induction d as [|[k' v'] d IH]; simpl; auto.
  destruct (String.eqb k k') eqn:E; simpl; try discriminate.
  intros Hm. now rewrite IH.
Qed.

Lemma dict_get_del_same {V} (k : string) (d : dict V) :
  NoDup (dict_keys d) -> dict_get k (dict_del k d) = None.
Proof.
  induction d as [|[k' v'] d IH]; simpl; auto.
  intros Hnd. inversion Hnd as [|? ? Hnotin Hnd']; subst.
  destruct (String.eqb k k') eqn:E; simpl.
  - apply String.eqb_eq in E. subst k'.
    destruct (dict_get k d) eqn:G; auto.
    exfalso. apply Hnotin. clear - G.
    induction d as [|[k1 v1] d IH]; simpl in *; try discriminate.
    destruct (String.eqb k k1) eqn:E.
    + left. symmetry. now apply String.eqb_eq.
    + right. auto.
  - rewrite E. auto.
Qed.

Lemma dict_get_del_other {V} (k k0 : string) (d : dict V) :
  k0 <> k -> dict_get k0 (dict_del k d) = dict_get k0 d.
Proof.
  intros Hne. induction d as [|[k' v'] d IH]; simpl; auto.
  destruct (String.eqb k k') eqn:E; simpl.
  - apply String.eqb_eq in E. subst k'.
    destruct (String.eqb k0 k) eqn:E0; auto.
    apply String.eqb_eq in E0. contradiction.
  - now rewrite IH.
Qed.

(** ** The [min] loop *)

Section MinLoop.
Context `{Builtins} {A : Type} (kf : A -> result key).

Lemma min_loop_in (rest : list A) :
  forall best bk r, min_loop kf best bk rest = Ok r -> In r (best :: rest).
Proof.
  induction rest as [|x rest IH]; simpl; intros best bk r Hr.
  - inversion Hr. auto.
  - destruct (kf x) as [k|e]; simpl in Hr; try discriminate.
    destruct (key_lt k bk).
    + apply IH in Hr. destruct Hr as [->|Hin]; auto.
    + apply IH in Hr. destruct Hr as [->|Hin]; auto.
Qed.

Lemma min_by_in (l : list A) (r : A) :
  min_by kf l = Ok (Some r) -> In r l.
Proof.
  destruct l as [|x rest]; simpl; try discriminate.
  destruct (kf x) as [k|e]; simpl; try discriminate.
  destruct (min_loop kf x k rest) as [b|e] eqn:E; simpl; try discriminate.
  intros Hr. inversion Hr; subst. eapply min_loop_in; eauto.
Qed.

Lemma min_by_none (l : list A) : min_by kf l = Ok None -> l = [].
Proof.
  destruct l as [|x rest]; simpl; auto.
  destruct (kf x) as [k|e]; simpl; try discriminate.
  destruct (min_loop kf x k rest); simpl; discriminate.
Qed.
End MinLoop.

(** ** Selection *)

Section Selection.
Context `{Builtins}.

Lemma select_unfold (loc : Coordinate) (w : World) :
  select_optimal_server loc w =
  (match healthy_servers w with
   | [] => Ok None
   | hs => min_by (fun a => selection_key loc (heap w a)) hs
   end, w).
Proof.
  unfold select_optimal_server. destruct (healthy_servers w); reflexivity.
Qed.

Lemma select_in_healthy (loc : Coordinate) (w w' : World) (a : ref) :
  select_optimal_server loc w = (Ok (Some a), w') ->
  w' = w /\ In a (healthy_servers w).
Proof.
  rewrite select_unfold. intros Hs.
  assert (Hw : w' = w) by (now inversion Hs). subst w'. split; auto.
  apply (f_equal fst) in Hs. cbn [fst] in Hs.
  destruct (healthy_servers w) as [|x hs]; try discriminate.
  eapply min_by_in. exact Hs.
Qed.

Lemma healthy_not_le (s : ServerInfo) :
  healthy s = true -> py_le (health_score s) (PyInt 50) = false.
Proof.
  unfold healthy, py_gt. destruct (health_score s) as [z|f]; simpl.
  - rewrite Z.ltb_lt, Z.leb_gt. auto.
  - rewrite (mixed_compare_antisym (PyInt 50) (PyFloat f)).
    destruct (mixed_compare (PyInt 50) (PyFloat f)) as [[]|]; simpl;
      congruence.
Qed.
End Selection.

(** C1: whenever [select_optimal_server] returns a server, that server is
    registered and its health score is strictly greater than 50; it is
    never a server whose score is less than or equal to 50. *)
Theorem select_optimal_server_healthy `{Builtins}
  (loc : Coordinate) (w w' : World) (a : ref) :
  select_optimal_server loc w = (Ok (Some a), w') ->
  In a (dict_values (servers w')) /\
  py_gt (health_score (heap w' a)) (PyInt 50) = true /\
  py_le (health_score (heap w' a)) (PyInt 50) = false.
Proof.
  intros Hs. apply select_in_healthy in Hs. destruct Hs as [-> Hin].
  unfold healthy_servers in Hin. apply filter_In in Hin.
  destruct Hin as [Hreg Hh]. repeat split; auto.
  now apply healthy_not_le.
Qed.

Lemma select_optimal_server_healthy_witness :
  In 0%nat (dict_values (servers world3)) /\
  py_gt (health_score (heap world3 0)) (PyInt 50) = true /\
  py_le (health_score (heap world3 0)) (PyInt 50) = false.
Proof.
  apply (@select_optimal_server_healthy stub_builtins
           (coord 40.5 (-74)) world3 world3 0%nat).
  rewrite select_unfold. vm_compute. reflexivity.
Defined.

(** C2: [select_optimal_server] returns [None] exactly when no registered
    server has a health score above 50. *)
Theorem select_optimal_server_none_iff `{Builtins}
  (loc : Coordinate) (w : World) :
  fst (select_optimal_server loc w) = Ok None <->
  (forall a, In a (dict_values (servers w)) ->
             py_gt (health_score (heap w a)) (PyInt 50) = false).
Proof.
  rewrite select_unfold. cbn [fst]. split.
  - intros Hn a Hin.
    destruct (healthy_servers w) as [|x hs] eqn:E.
    + destruct (py_gt (health_score (heap w a)) (PyInt 50)) eqn:G; auto.
      assert (Ha : In a (healthy_servers w)).
      { unfold healthy_servers. apply filter_In. split; auto. }
      rewrite E in Ha. destruct Ha.
    + apply min_by_none in Hn. discriminate.
  - intros Hall.
    destruct (healthy_servers w) as [|x hs] eqn:E; auto.
    assert (Hx : In x (healthy_servers w)) by (rewrite E; left; auto).
    unfold healthy_servers in Hx. apply filter_In in Hx.
    destruct Hx as [Hreg Hh]. unfold healthy in Hh.
    rewrite (Hall x Hreg) in Hh. discriminate.
Qed.

(** C8: selection reads the registry without changing it, so a second
    call with the same location on the resulting state gives the same
    answer as the first. *)
Theorem select_optimal_server_deterministic `{Builtins}
  (loc : Coordinate) (w : World) :
  snd (select_optimal_server loc w) = w /\
  select_optimal_server loc (snd (select_optimal_server loc w)) =
  select_optimal_server loc w /\
  (r1 <- select_optimal_server loc ;; r2 <- select_optimal_server loc ;;
   ret (r1, r2))%M w =
  (match fst (select_optimal_server loc w) with
   | Ok r => Ok (r, r)
   | Raise e => Raise e
   end, w).
Proof.
  assert (Hsnd : snd (select_optimal_server loc w) = w)
    by (rewrite select_unfold; reflexivity).
  split; [exact Hsnd|]. split; [now rewrite Hsnd|].
  unfold bind. destruct (select_optimal_server loc w) as [r w1] eqn:E.
  cbn [fst snd] in *. subst w1. destruct r as [r|e]; auto.
  rewrite E. reflexivity.
Qed.

(** ** Registration *)

(** C10: [register_server] binds the identifier of the supplied record to
    that record: a later lookup of the identifier yields the supplied
    record as a whole (health score, request and error counters and time
    of the last check are the supplied record's, whatever was stored
    before), every other identifier resolves as before, and no record is
    modified. *)
Theorem register_server_replaces (a : ref) (w : World) :
  let w' := run (register_server a) w in
  let id := server_id (heap w a) in
  get_server id w' = Some (heap w a) /\
  (forall k, k <> id -> get_server k w' = get_server k w) /\
  (forall b, heap w' b = heap w b) /\
  dict_keys (servers w') =
    (if dict_mem id (servers w) then dict_keys (servers w)
     else dict_keys (servers w) ++ [id]).
Proof.
  cbn. unfold get_server. cbn. repeat split.
  - now rewrite dict_get_set_same.
  - intros k Hk. now rewrite dict_get_set_other.
  - destruct (dict_mem (server_id (heap w a)) (servers w)) eqn:E.
    + now apply dict_keys_set_present.
    + now apply dict_keys_set_absent.
Qed.

(** Re-registering a degraded server under its identifier: the stored
    score is the fresh record's [100.0] again and the counters are [0]. *)
Example reregister_resets :
  let w1 := run health_check_pass world3_errors in
  let w2 := run (register_new_record "nyc" "10.0.0.1" 8080 new_york) w1 in
  option_map health_score (get_server "nyc" w1) = Some (PyInt 0) /\
  option_map error_count (get_server "nyc" w1) = Some 10%Z /\
  option_map health_score (get_server "nyc" w2) = Some (PyFloat 100) /\
  option_map error_count (get_server "nyc" w2) = Some 0%Z /\
  option_map last_health_check (get_server "nyc" w2) = Some 0%float /\
  dict_keys (servers w2) = ["nyc"; "lax"; "sfo"]%string.
Proof. vm_compute. repeat split; reflexivity. Qed.

(** ** Metrics export *)







Section Metrics.
Context `{Builtins}.




End Metrics.





(** The export after the New York server has counted 25 requests and 10
    errors and a health-check pass has taken its score to [0]. *)
Example generate_metrics_after_check :
  option_map (firstn 3 (A:=string))
    (match fst (@generate_metrics stub_builtins
                  (run health_check_pass world3_errors)) with
     | Ok text => Some (split_on "010" text)
     | Raise _ => None
     end) =
  Some [ ("cdn_server_health{server_id=" ++ String "034" "nyc" ++
            String "034" "} 0")%string;
         ("cdn_server_requests{server_id=" ++ String "034" "nyc" ++
            String "034" "} 25")%string;
         ("cdn_server_errors{server_id=" ++ String "034" "nyc" ++
            String "034" "} 10")%string ].
Proof. vm_compute. reflexivity. Qed.

(** ** Binary64 arithmetic: values, comparison, rounding *)

Section FloatFacts.
Local Open Scope Z_scope.

Lemma digits2_pos_bounds (p : positive) :
  2 ^ (Zpos (digits2_pos p) - 1) <= Zpos p < 2 ^ Zpos (digits2_pos p).
Proof.
  induction p as [p IH|p IH|]; cbn [digits2_pos].
  - rewrite Pos2Z.inj_succ, Z.pow_succ_r by lia.
    replace (Z.succ (Zpos (digits2_pos p)) - 1) with (Z.succ (Zpos (digits2_pos p) - 1)) by lia.
    rewrite Z.pow_succ_r by lia. lia.
  - rewrite Pos2Z.inj_succ, Z.pow_succ_r by lia.
    replace (Z.succ (Zpos (digits2_pos p)) - 1) with (Z.succ (Zpos (digits2_pos p) - 1)) by lia.
    rewrite Z.pow_succ_r by lia. lia.
  - simpl. lia.
Qed.

Lemma digits2_pos_unique (p : positive) (k : Z) :
  2 ^ (k - 1) <= Zpos p < 2 ^ k -> Zpos (digits2_pos p) = k.
Proof.
  intros [Hlo Hhi]. pose proof (digits2_pos_bounds p) as [Blo Bhi].
  assert (Hk : 0 < k).
  { destruct (Z.ltb_spec 0 k); auto. exfalso.
    assert (2 ^ k <= 1).
    { destruct (Z.eq_dec k 0) as [->|]; [simpl; lia|].
      rewrite Z.pow_neg_r by lia. lia. }
    lia. }
  destruct (Z.lt_trichotomy (Zpos (digits2_pos p)) k) as [Hlt|[Heq|Hgt]]; auto.
  - exfalso. assert (2 ^ Zpos (digits2_pos p) <= 2 ^ (k - 1))
      by (apply Z.pow_le_mono_r; lia). lia.
  - exfalso. assert (2 ^ k <= 2 ^ (Zpos (digits2_pos p) - 1))
      by (apply Z.pow_le_mono_r; lia). lia.
Qed.

Lemma valid_canon (sg : bool) (m : positive) (e : Z) :
  valid_binary (S754_finite sg m e) = true -> canon m e.
Proof.
  unfold SpecFloat.valid_binary, bounded, canonical_mantissa, fexp, emin.
  change prec with 53. change emax with 1024.
  intros Hb. apply andb_prop in Hb. destruct Hb as [Hc He].
  apply Z.eqb_eq in Hc. apply Z.leb_le in He.
  pose proof (digits2_pos_bounds m) as [Blo Bhi].
  unfold canon. repeat split; try lia.
  - assert (Zpos (digits2_pos m) <= 53) by lia.
    assert (2 ^ Zpos (digits2_pos m) <= 2 ^ 53)
      by (apply Z.pow_le_mono_r; lia). lia.
  - destruct (Z.eq_dec e (-1074)); auto. right.
    assert (Zpos (digits2_pos m) = 53) by lia.
    replace 52 with (Zpos (digits2_pos m) - 1) by lia. exact Blo.
Qed.

Lemma mag_pos (m : positive) (e : Z) : -1074 <= e -> 0 < Zpos m * 2 ^ (e + scale).
Proof.
  intros He. unfold scale. apply Z.mul_pos_pos; [lia|].
  apply Z.pow_pos_nonneg; lia.
Qed.

Lemma mag_compare (m1 m2 : positive) (e1 e2 : Z) :
  canon m1 e1 -> canon m2 e2 ->
  (Zpos m1 * 2 ^ (e1 + scale) ?= Zpos m2 * 2 ^ (e2 + scale)) =
  match e1 ?= e2 with
  | Lt => Lt
  | Gt => Gt
  | Eq => Pos.compare_cont Eq m1 m2
  end.
Proof.
  unfold canon, scale. intros (He1 & Hm1 & Hn1) (He2 & Hm2 & Hn2).
  assert (Hstep : forall a b ma mb : Z,
             -1074 <= a -> a < b -> 0 < ma < 2 ^ 53 -> 2 ^ 52 <= mb ->
             ma * 2 ^ (a + 1074) < mb * 2 ^ (b + 1074)).
  { intros a b ma mb Ha Hab Hma Hmb.
    assert (Hp : 0 < 2 ^ (a + 1074)) by (apply Z.pow_pos_nonneg; lia).
    assert (Hq : 2 ^ (a + 1074 + 1) <= 2 ^ (b + 1074))
      by (apply Z.pow_le_mono_r; lia).
    rewrite Z.pow_add_r in Hq by lia. change (2 ^ 1) with 2 in Hq.
    change (2 ^ 53) with (2 * 2 ^ 52) in Hma.
    assert (0 < 2 ^ 52) by reflexivity. nia. }
  destruct (Z.compare_spec e1 e2) as [Heq|Hlt|Hgt].
  - subst e2. fold (Pos.compare m1 m2).
    assert (Hp : 0 < 2 ^ (e1 + 1074)) by (apply Z.pow_pos_nonneg; lia).
    destruct (Pos.compare_spec m1 m2) as [E|L|G].
    + subst. apply Z.compare_refl.
    + apply Z.compare_lt_iff. apply Z.mul_lt_mono_pos_r; lia.
    + apply Z.compare_gt_iff. apply Z.mul_lt_mono_pos_r; lia.
  - apply Z.compare_lt_iff. apply Hstep; try lia.
  - apply Z.compare_gt_iff. apply Hstep; try lia.
Qed.

Lemma SFcompare_val (x y : spec_float) :
  valid_binary x = true -> valid_binary y = true ->
  SFcompare x y =
  match SFval x, SFval y with
  | Some a, Some b => Some (xcompare a b)
  | _, _ => None
  end.
Proof.
  intros Vx Vy.
  destruct x as [sx|sx| |sx mx ex], y as [sy|sy| |sy my ey];
    try reflexivity;
    try (destruct sx; reflexivity); try (destruct sy; reflexivity);
    try (destruct sx, sy; reflexivity).
  - apply valid_canon in Vy. pose proof (mag_pos my (proj1 (proj1 Vy))).
    cbn [SFcompare SFval xcompare]. f_equal.
    destruct sy; cbn [cond_Zopp]; symmetry.
    + apply Z.compare_gt_iff. lia.
    + apply Z.compare_lt_iff. lia.
  - apply valid_canon in Vx. pose proof (mag_pos mx (proj1 (proj1 Vx))).
    cbn [SFcompare SFval xcompare]. f_equal.
    destruct sx; cbn [cond_Zopp]; symmetry.
    + apply Z.compare_lt_iff. lia.
    + apply Z.compare_gt_iff. lia.
  - apply valid_canon in Vx, Vy.
    pose proof (mag_pos mx (proj1 (proj1 Vx))).
    pose proof (mag_pos my (proj1 (proj1 Vy))).
    pose proof (mag_compare Vx Vy) as Hc.
    cbn [SFcompare SFval xcompare]. f_equal.
    destruct sx, sy; cbn [cond_Zopp].
    + rewrite (Z.compare_opp (Zpos mx * 2 ^ (ex + scale))).
      rewrite (Z.compare_antisym (Zpos mx * 2 ^ (ex + scale))), Hc.
      destruct (ex ?= ey); reflexivity.
    + symmetry. apply Z.compare_lt_iff. lia.
    + symmetry. apply Z.compare_gt_iff. lia.
    + rewrite <- Hc. reflexivity.
Qed.

Lemma scale_compare (a b : Z) : (a * 2 ^ scale ?= b * 2 ^ scale) = (a ?= b).
Proof.
  assert (Hp : 0 < 2 ^ scale) by reflexivity.
  destruct (Z.compare_spec a b) as [E|L|G].
  - subst. apply Z.compare_refl.
  - apply Z.compare_lt_iff. apply Z.mul_lt_mono_pos_r; auto.
  - apply Z.compare_gt_iff. apply Z.mul_lt_mono_pos_r; auto.
Qed.

Lemma float_compare_val (a b : float) :
  SFcompare (Prim2SF a) (Prim2SF b) = mixed_compare (PyFloat a) (PyFloat b).
Proof.
  unfold mixed_compare, pyval.
  apply SFcompare_val; apply Prim2SF_valid.
Qed.

Lemma py_lt_val (x y : pynum) : py_lt x y = cmp_is Lt (mixed_compare x y).
Proof.
  destruct x as [a|a], y as [b|b]; try reflexivity.
  - unfold py_lt, mixed_compare, pyval, xcompare, cmp_is.
    rewrite scale_compare. unfold Z.ltb. destruct (a ?= b); reflexivity.
  - unfold py_lt. rewrite FloatAxioms.ltb_spec, <- float_compare_val. unfold SFltb.
    destruct (SFcompare (Prim2SF a) (Prim2SF b)) as [[]|]; reflexivity.
Qed.

Lemma py_eq_val (x y : pynum) : py_eq x y = cmp_is Eq (mixed_compare x y).
Proof.
  destruct x as [a|a], y as [b|b]; try reflexivity.
  - unfold py_eq, mixed_compare, pyval, xcompare, cmp_is.
    rewrite scale_compare, Z.eqb_compare. destruct (a ?= b); reflexivity.
  - unfold py_eq. rewrite FloatAxioms.eqb_spec, <- float_compare_val. unfold SFeqb.
    destruct (SFcompare (Prim2SF a) (Prim2SF b)) as [[]|]; reflexivity.
Qed.

Lemma py_le_val (x y : pynum) :
  py_le x y = cmp_is Lt (mixed_compare x y) || cmp_is Eq (mixed_compare x y).
Proof.
  destruct x as [a|a], y as [b|b]; try reflexivity.
  - unfold py_le, mixed_compare, pyval, xcompare, cmp_is.
    rewrite scale_compare. unfold Z.leb. destruct (a ?= b); reflexivity.
  - unfold py_le. rewrite FloatAxioms.leb_spec, <- float_compare_val. unfold SFleb.
    destruct (SFcompare (Prim2SF a) (Prim2SF b)) as [[]|]; reflexivity.
Qed.

Lemma mixed_compare_trans (c1 c2 : comparison) (x y z : pynum) :
  mixed_compare x y = Some c1 -> mixed_compare y z = Some c2 ->
  match c1, c2 with
  | Lt, Lt | Lt, Eq | Eq, Lt => mixed_compare x z = Some Lt
  | Eq, Eq => mixed_compare x z = Some Eq
  | _, _ => True
  end.
Proof.
  unfold mixed_compare.
  destruct (pyval x) as [a|], (pyval y) as [b|], (pyval z) as [c|];
    try discriminate.
  intros H1 H2. inversion H1 as [E1]. inversion H2 as [E2].
  destruct (xcompare a b) eqn:Eab, (xcompare b c) eqn:Ebc; auto; f_equal;
    eauto using xcompare_lt_trans, xcompare_eq_lt, xcompare_lt_eq,
      xcompare_eq_trans.
Qed.

Lemma mixed_compare_total (x y : pynum) :
  pyval x <> None -> pyval y <> None -> mixed_compare x y <> None.
Proof.
  unfold mixed_compare. destruct (pyval x), (pyval y); congruence.
Qed.

Lemma shr_1_m (r : shr_record) : 0 <= shr_m r -> shr_m (shr_1 r) = shr_m r / 2.
Proof.
  destruct r as [m rb sb]. cbn [shr_m shr_1]. intros Hm.
  destruct m as [|p|p]; try lia; try reflexivity.
  destruct p as [p|p|]; cbn [shr_m].
  - rewrite Pos2Z.inj_xI.
    apply Z.div_unique with (r := 1); lia.
  - rewrite (Pos2Z.inj_xO p).
    apply Z.div_unique with (r := 0); lia.
  - reflexivity.
Qed.

Lemma iter_shr_1_m (n : positive) :
  forall r, 0 <= shr_m r ->
            shr_m (iter_pos shr_1 n r) = shr_m r / 2 ^ Zpos n.
Proof.
  induction n as [n IH|n IH|]; intros r Hr; cbn [iter_pos].
  - assert (H1 : 0 <= shr_m (shr_1 r))
      by (rewrite shr_1_m by auto; apply Z.div_pos; lia).
    assert (H2 : 0 <= shr_m (iter_pos shr_1 n (shr_1 r)))
      by (rewrite IH by auto; apply Z.div_pos; try lia;
          apply Z.pow_pos_nonneg; lia).
    rewrite IH, IH, shr_1_m by auto.
    rewrite !Z.div_div by (try lia; apply Z.pow_pos_nonneg; lia).
    f_equal. rewrite Pos2Z.inj_xI.
    replace (2 * Zpos n + 1) with (1 + Zpos n + Zpos n) by lia.
    rewrite !Z.pow_add_r by lia. change (2 ^ 1) with 2. lia.
  - assert (H2 : 0 <= shr_m (iter_pos shr_1 n r))
      by (rewrite IH by auto; apply Z.div_pos; try lia;
          apply Z.pow_pos_nonneg; lia).
    rewrite IH, IH by auto.
    rewrite !Z.div_div by (try lia; apply Z.pow_pos_nonneg; lia).
    f_equal. rewrite (Pos2Z.inj_xO n).
    replace (2 * Zpos n) with (Zpos n + Zpos n) by lia.
    rewrite Z.pow_add_r by lia. reflexivity.
  - rewrite shr_1_m by auto. reflexivity.
Qed.

Lemma shr_m_of_loc (m : Z) (l : SpecFloat.location) : shr_m (shr_record_of_loc m l) = m.
Proof. destruct l as [|[]]; reflexivity. Qed.

Lemma shr_m_shr (r : shr_record) (e n : Z) :
  0 <= shr_m r ->
  shr_m (fst (shr r e n)) = (if 0 <? n then shr_m r / 2 ^ n else shr_m r) /\
  snd (shr r e n) = (if 0 <? n then e + n else e).
Proof.
  intros Hr. destruct n as [|p|p]; cbn [shr fst snd]; auto.
  split; auto. now apply iter_shr_1_m.
Qed.

Lemma shr_nonneg (r : shr_record) (e n : Z) :
  0 <= shr_m r -> 0 <= shr_m (fst (shr r e n)).
Proof.
  intros Hr. destruct (shr_m_shr r e n Hr) as [-> _].
  destruct (0 <? n) eqn:E; auto.
  apply Z.div_pos; auto. apply Z.pow_pos_nonneg; lia.
Qed.

Lemma round_nearest_even_bounds (m : Z) (l : SpecFloat.location) :
  m <= round_nearest_even m l <= m + 1.
Proof.
  destruct l as [|[]]; cbn [round_nearest_even]; try lia.
  destruct (Z.even m); lia.
Qed.

Lemma binary_round_aux_sign (sg : bool) (m e : Z) (l : SpecFloat.location) :
  0 <= m -> SFsign_is sg (binary_round_aux prec emax sg m e l) = true.
Proof.
  intros Hm. unfold binary_round_aux, shr_fexp.
  set (n1 := fexp prec emax (Zdigits2 m + e) - e).
  pose proof (@shr_nonneg (shr_record_of_loc m l) e n1) as H1.
  rewrite shr_m_of_loc in H1. specialize (H1 Hm).
  destruct (shr (shr_record_of_loc m l) e n1) as [mrs1 e1].
  cbn [fst] in H1.
  set (m2 := round_nearest_even (shr_m mrs1) (loc_of_shr_record mrs1)).
  assert (H2 : 0 <= m2)
    by (pose proof (round_nearest_even_bounds (shr_m mrs1)
                      (loc_of_shr_record mrs1)); unfold m2; lia).
  set (n2 := fexp prec emax (Zdigits2 m2 + e1) - e1).
  pose proof (@shr_nonneg (shr_record_of_loc m2 loc_Exact) e1 n2) as H3.
  rewrite shr_m_of_loc in H3. specialize (H3 H2).
  destruct (shr (shr_record_of_loc m2 loc_Exact) e1 n2) as [mrs2 e2].
  cbn [fst] in H3.
  destruct (shr_m mrs2) as [|p|p]; try lia.
  - cbn. apply Bool.eqb_reflx.
  - destruct (e2 <=? emax - prec); cbn; apply Bool.eqb_reflx.
Qed.

Lemma binary_normalize_sign (z e : Z) :
  SFsign_is (z <? 0) (binary_normalize prec emax z e false) = true.
Proof.
  destruct z as [|p|p]; cbn [binary_normalize]; try reflexivity;
    unfold binary_round;
    destruct (shl_align p e (fexp prec emax (Zpos (digits2_pos p) + e)))
      as [mz ez]; apply binary_round_aux_sign; lia.
Qed.

Lemma iter_xO_val (d m : positive) :
  Zpos (Pos.iter xO m d) = Zpos m * 2 ^ Zpos d.
Proof.
  revert m. induction d as [|d IH] using Pos.peano_ind; intros m.
  - cbn [Pos.iter]. change (2 ^ 1) with 2. lia.
  - rewrite Pos.iter_succ, (Pos2Z.inj_xO (Pos.iter xO m d)), IH, Pos2Z.inj_succ, Z.pow_succ_r by lia.
    lia.
Qed.

Lemma shl_align_val (m : positive) (e ez : Z) :
  ez <= e ->
  Zpos (fst (shl_align m e ez)) = Zpos m * 2 ^ (e - ez) /\
  snd (shl_align m e ez) = ez.
Proof.
  intros Hle. unfold shl_align.
  destruct (ez - e) as [|d|d] eqn:E; cbn [fst snd].
  - replace (e - ez) with 0 by lia. split; lia.
  - lia.
  - rewrite iter_xO_val. replace (e - ez) with (Zpos d) by lia. split; lia.
Qed.

Lemma SFpositive_sign (r : spec_float) (sg : bool) :
  SFsign_is sg r = true -> SFpositive r = true -> sg = false.
Proof.
  destruct r as [s|s| |s m e]; cbn; try discriminate;
    destruct s, sg; cbn; congruence.
Qed.

Lemma aligned_val (sg : bool) (m : positive) (e ez : Z) :
  -1074 <= ez <= e ->
  cond_Zopp sg (Zpos m * 2 ^ (e + scale)) =
  cond_Zopp sg (Zpos (fst (shl_align m e ez))) * 2 ^ (ez + scale).
Proof.
  intros He. destruct (@shl_align_val m e ez) as [-> _]; [lia|].
  unfold scale. replace (e + 1074) with ((e - ez) + (ez + 1074)) by lia.
  rewrite Z.pow_add_r by lia. destruct sg; cbn [cond_Zopp]; lia.
Qed.

Lemma SFsub_positive (x y : spec_float) :
  valid_binary x = true -> valid_binary y = true ->
  SFpositive (SF64sub x y) = true -> SFcompare y x = Some Lt.
Proof.
  intros Vx Vy. rewrite (SFcompare_val y x Vy Vx).
  destruct x as [sx|sx| |sx mx ex], y as [sy|sy| |sy my ey];
    try (cbn; discriminate);
    try (destruct sx; cbn; (discriminate || reflexivity));
    try (destruct sy; cbn; (discriminate || reflexivity));
    try (destruct sx, sy; cbn; (discriminate || reflexivity)).
  - (* zero - finite *)
    apply valid_canon in Vy. pose proof (mag_pos my (proj1 (proj1 Vy))).
    destruct sy; cbn [SF64sub SFsub SFpositive negb]; try discriminate.
    intros _. cbn [SFval xcompare cond_Zopp]. f_equal.
    apply Z.compare_lt_iff. lia.
  - (* finite - zero *)
    apply valid_canon in Vx. pose proof (mag_pos mx (proj1 (proj1 Vx))).
    destruct sx; cbn [SF64sub SFsub SFpositive]; try discriminate.
    intros _. cbn [SFval xcompare cond_Zopp]. f_equal.
    apply Z.compare_lt_iff. lia.
  - (* finite - finite *)
    apply valid_canon in Vx, Vy.
    destruct Vx as (Hex & _), Vy as (Hey & _).
    cbn [SF64sub SFsub]. set (ez := Z.min ex ey).
    set (z1 := cond_Zopp sx (Zpos (fst (shl_align mx ex ez)))).
    set (z2 := cond_Zopp sy (Zpos (fst (shl_align my ey ez)))).
    intros Hp.
    pose proof (binary_normalize_sign (z1 - z2) ez) as Hs.
    pose proof (SFpositive_sign _ _ Hs Hp) as Hn.
    apply Z.ltb_ge in Hn.
    assert (Hz : z1 - z2 <> 0).
    { intros E. rewrite E in Hp. discriminate. }
    cbn [SFval xcompare]. f_equal. apply Z.compare_lt_iff.
    rewrite (@aligned_val sx mx ex ez), (@aligned_val sy my ey ez)
      by (unfold ez; lia).
    fold z1 z2. apply Z.mul_lt_mono_pos_r; [|lia].
    apply Z.pow_pos_nonneg; unfold scale, ez; lia.
Qed.

Lemma positive_of_gt (c : Z) (d : float) :
  0 <= c -> py_gt (PyFloat d) (PyInt c) = true ->
  SFpositive (Prim2SF d) = true.
Proof.
  intros Hc. unfold py_gt, py_lt, mixed_compare, pyval.
  destruct (Prim2SF d) as [s|s| |s m e]; cbn [SFval cmp_is xcompare].
  - intros H. destruct (c * 2 ^ scale ?= 0) eqn:E; try discriminate.
    apply Z.compare_lt_iff in E. assert (HP : 0 < 2 ^ scale) by reflexivity.
    set (P := 2 ^ scale) in *. clearbody P. exfalso.
    change (c * P < 0) in E. nia.
  - destruct s; cbn; auto.
  - discriminate.
  - destruct s; cbn [cond_Zopp SFpositive]; auto.
    intros H. destruct (_ ?= _) eqn:E; try discriminate.
    apply Z.compare_lt_iff in E. assert (HP : 0 < 2 ^ scale) by reflexivity.
    assert (HQ : 0 <= 2 ^ (e + scale)) by (apply Z.pow_nonneg; lia).
    set (P := 2 ^ scale) in *. set (Q := 2 ^ (e + scale)) in *.
    clearbody P Q. exfalso. change (c * P < - (Zpos m * Q)) in E. nia.
Qed.

(** A positive difference [t - l] means [l < t]. *)
Lemma elapsed_gt_lt (c : Z) (t l : float) :
  0 <= c -> py_gt (PyFloat (t - l)%float) (PyInt c) = true ->
  (l <? t)%float = true.
Proof.
  intros Hc Hg. apply positive_of_gt in Hg; auto.
  rewrite sub_spec in Hg.
  apply SFsub_positive in Hg; try apply Prim2SF_valid.
  rewrite FloatAxioms.ltb_spec. unfold SFltb. now rewrite Hg.
Qed.

Lemma fexp_eq (x : Z) : -1074 <= x - 53 -> fexp prec emax x = x - 53.
Proof. unfold fexp, emin. change prec with 53. change emax with 1024. lia. Qed.

Lemma pos_of_bounds (z lo : Z) : 0 < lo -> lo <= z -> exists p, z = Zpos p.
Proof. intros Hlo Hz. destruct z as [|p|p]; try lia. now exists p. Qed.

(** Rounding an exact positive mantissa whose target exponent [E] is in
    range: the result is infinite or a normal number with that exponent
    (or the next one). *)
Lemma binary_round_aux_exact (mz : positive) (ez E : Z) :
  E = Zpos (digits2_pos mz) + ez - 53 -> -1074 <= E -> ez <= E ->
  binary_round_aux prec emax false (Zpos mz) ez loc_Exact
    = S754_infinity false \/
  exists m e,
    binary_round_aux prec emax false (Zpos mz) ez loc_Exact
      = S754_finite false m e /\
    2 ^ 52 <= Zpos m < 2 ^ 53 /\ E <= e <= 971.
Proof.
  intros HE Hmin Hez. unfold binary_round_aux, shr_fexp.
  cbn [Zdigits2]. rewrite fexp_eq by lia. rewrite <- HE.
  set (r0 := shr_record_of_loc (Zpos mz) loc_Exact).
  assert (Hr0 : 0 <= shr_m r0) by (cbn; lia).
  destruct (shr_m_shr r0 ez (E - ez) Hr0) as [Hm1 He1].
  destruct (shr r0 ez (E - ez)) as [mrs1 e1]. cbn [fst snd] in Hm1, He1.
  change (shr_m r0) with (Zpos mz) in Hm1.
  pose proof (digits2_pos_bounds mz) as [Blo Bhi].
  assert (He1' : e1 = E) by (destruct (0 <? E - ez) eqn:T;
                              [|apply Z.ltb_ge in T]; lia).
  clear He1. subst e1.
  assert (Hb1 : 2 ^ 52 <= shr_m mrs1 < 2 ^ 53).
  { assert (Hd : Zpos (digits2_pos mz) = (E - ez) + 53) by lia.
    assert (Hq : shr_m mrs1 = Zpos mz / 2 ^ (E - ez)).
    { rewrite Hm1. destruct (0 <? E - ez) eqn:T; auto.
      apply Z.ltb_ge in T. replace (E - ez) with 0 by lia.
      now rewrite Z.div_1_r. }
    rewrite Hq. rewrite Hd in Blo, Bhi.
    replace (E - ez + 53 - 1) with ((E - ez) + 52) in Blo by lia.
    rewrite Z.pow_add_r in Blo, Bhi by lia.
    assert (0 < 2 ^ (E - ez)) by (apply Z.pow_pos_nonneg; lia).
    split.
    - apply Z.div_le_lower_bound; lia.
    - apply Z.div_lt_upper_bound; lia. }
  set (m2 := round_nearest_even (shr_m mrs1) (loc_of_shr_record mrs1)).
  assert (Hb2 : 2 ^ 52 <= m2 <= 2 ^ 53).
  { pose proof (round_nearest_even_bounds (shr_m mrs1)
                  (loc_of_shr_record mrs1)). unfold m2. lia. }
  destruct (@pos_of_bounds m2 (2 ^ 52)) as [p2 Hp2]; [reflexivity|lia|].
  rewrite Hp2 in *. cbn [Zdigits2].
  set (r2 := shr_record_of_loc (Zpos p2) loc_Exact).
  assert (Hr2 : 0 <= shr_m r2) by (cbn; lia).
  destruct (Z.eq_dec (Zpos p2) (2 ^ 53)) as [Htop|Hlow].
  - assert (Hd2 : Zpos (digits2_pos p2) = 54)
      by (apply digits2_pos_unique; rewrite Htop; split; [reflexivity|];
          reflexivity).
    rewrite Hd2. rewrite fexp_eq by lia.
    destruct (shr_m_shr r2 E (54 + E - 53 - E) Hr2) as [Hm3 He3].
    destruct (shr r2 E (54 + E - 53 - E)) as [mrs3 e3].
    cbn [fst snd] in Hm3, He3.
    replace (54 + E - 53 - E) with 1 in Hm3, He3 by lia.
    cbn [Z.ltb Z.compare] in Hm3, He3. change (shr_m r2) with (Zpos p2) in Hm3.
    rewrite Htop in Hm3. change (2 ^ 53 / 2 ^ 1) with (2 ^ 52) in Hm3.
    rewrite Hm3. change (2 ^ 52) with (Zpos (Z.to_pos (2 ^ 52))).
    cbv iota. change (emax - prec) with 971.
    destruct (e3 <=? 971) eqn:T; auto. right.
    apply Z.leb_le in T. eexists _, _. split; [reflexivity|].
    split; [split; reflexivity|lia].
  - assert (Hd2 : Zpos (digits2_pos p2) = 53)
      by (apply digits2_pos_unique; change (53 - 1) with 52; lia).
    rewrite Hd2. rewrite fexp_eq by lia.
    destruct (shr_m_shr r2 E (53 + E - 53 - E) Hr2) as [Hm3 He3].
    destruct (shr r2 E (53 + E - 53 - E)) as [mrs3 e3].
    cbn [fst snd] in Hm3, He3.
    replace (53 + E - 53 - E) with 0 in Hm3, He3 by lia.
    cbn [Z.ltb Z.compare] in Hm3, He3. change (shr_m r2) with (Zpos p2) in Hm3.
    rewrite Hm3. cbv iota. change (emax - prec) with 971.
    destruct (e3 <=? 971) eqn:T; auto. right.
    apply Z.leb_le in T. eexists _, _. split; [reflexivity|].
    split; lia.
Qed.

Lemma binary_round_int (p : positive) :
  binary_round prec emax false p 0 = S754_infinity false \/
  exists m e,
    binary_round prec emax false p 0 = S754_finite false m e /\
    2 ^ 52 <= Zpos m < 2 ^ 53 /\ Zpos (digits2_pos p) - 53 <= e <= 971.
Proof.
  unfold binary_round.
  pose proof (digits2_pos_bounds p) as [Blo Bhi].
  set (d := Zpos (digits2_pos p)) in *.
  assert (Hd : 1 <= d) by (unfold d; lia).
  rewrite fexp_eq by lia. replace (d + 0 - 53) with (d - 53) by lia.
  destruct (Z.le_gt_cases 0 (d - 53)) as [Hbig|Hsmall].
  - assert (Hs : shl_align p 0 (d - 53) = (p, 0)).
    { unfold shl_align. destruct (d - 53 - 0) eqn:E; try reflexivity. lia. }
    rewrite Hs. apply binary_round_aux_exact; fold d; lia.
  - destruct (@shl_align_val p 0 (d - 53)) as [Hv He]; [lia|].
    destruct (shl_align p 0 (d - 53)) as [mz ez]. cbn [fst snd] in Hv, He.
    subst ez. replace (0 - (d - 53)) with (53 - d) in Hv by lia.
    assert (Hdz : Zpos (digits2_pos mz) = 53).
    { apply digits2_pos_unique. rewrite Hv.
      assert (0 < 2 ^ (53 - d)) by (apply Z.pow_pos_nonneg; lia).
      replace (2 ^ (53 - 1)) with (2 ^ (d - 1) * 2 ^ (53 - d))
        by (rewrite <- Z.pow_add_r by lia; f_equal; lia).
      replace (2 ^ 53) with (2 ^ d * 2 ^ (53 - d))
        by (rewrite <- Z.pow_add_r by lia; f_equal; lia).
      split; [apply Z.mul_le_mono_nonneg_r|apply Z.mul_lt_mono_pos_r]; lia. }
    apply binary_round_aux_exact; lia.
Qed.

Lemma float_of_int_large (z : Z) (f : float) :
  128 <= z -> float_of_int z = Ok f ->
  exists m e, Prim2SF f = S754_finite false m e /\
              2 ^ 52 <= Zpos m /\ -45 <= e.
Proof.
  intros Hz. unfold float_of_int.
  destruct z as [|p|p]; try lia. cbn [binary_normalize].
  pose proof (digits2_pos_bounds p) as [_ Bhi].
  assert (Hd : 8 <= Zpos (digits2_pos p)).
  { destruct (Z.le_gt_cases 8 (Zpos (digits2_pos p))); auto. exfalso.
    assert (2 ^ Zpos (digits2_pos p) <= 2 ^ 7)
      by (apply Z.pow_le_mono_r; lia).
    change (2 ^ 7) with 128 in *. lia. }
  destruct (binary_round_int p) as [->|(m & e & -> & Hm & He)];
    [discriminate|].
  intros Hf. inversion Hf as [Hf']. exists m, e. clear Hf.
  change (Z.ldexp _ _) with (SF2Prim (S754_finite false m e)).
  rewrite Prim2SF_SF2Prim; [split; [reflexivity|lia]|].
  unfold SpecFloat.valid_binary, bounded, canonical_mantissa.
  assert (Hdm : Zpos (digits2_pos m) = 53)
    by (apply digits2_pos_unique; change (53 - 1) with 52; lia).
  rewrite Hdm, fexp_eq by lia. change (emax - prec) with 971.
  apply andb_true_intro. split; [apply Z.eqb_eq|apply Z.leb_le]; lia.
Qed.

(** A float at least [128] is not below a float with a smaller exponent. *)
Lemma large_not_lt (x h : float) (m mh : positive) (e eh : Z) :
  Prim2SF x = S754_finite false m e -> -45 <= e ->
  Prim2SF h = S754_finite false mh eh -> eh < -45 ->
  (x <? h)%float = false.
Proof.
  intros Hx He Hh Heh. rewrite FloatAxioms.ltb_spec, Hx, Hh.
  unfold SFltb, SFcompare.
  destruct (Z.compare_spec e eh); first [lia | reflexivity].
Qed.

End FloatFacts.

(** ** The order on selection keys *)

Lemma key_lt_val (k1 k2 : key) :
  key_lt k1 k2 =
  cmp_is Lt (dcmp k1 k2) || (cmp_is Eq (dcmp k1 k2) && cmp_is Lt (hcmp k1 k2)).
Proof.
  unfold key_lt, dcmp, hcmp.
  change (fst k1 =? fst k2)%float
    with (py_eq (PyFloat (fst k1)) (PyFloat (fst k2))).
  change (fst k1 <? fst k2)%float
    with (py_lt (PyFloat (fst k1)) (PyFloat (fst k2))).
  rewrite !py_eq_val, !py_lt_val.
  destruct (mixed_compare (PyFloat (fst k1)) (PyFloat (fst k2))) as [[]|];
    cbn; auto.
  destruct (mixed_compare (snd k1) (snd k2)) as [[]|]; reflexivity.
Qed.

Lemma key_le_val (k1 k2 : key) :
  key_le k1 k2 =
  cmp_is Lt (dcmp k1 k2) ||
  (cmp_is Eq (dcmp k1 k2) &&
   (cmp_is Lt (hcmp k1 k2) || cmp_is Eq (hcmp k1 k2))).
Proof.
  unfold key_le, dcmp, hcmp.
  change (fst k1 =? fst k2)%float
    with (py_eq (PyFloat (fst k1)) (PyFloat (fst k2))).
  change (fst k1 <=? fst k2)%float
    with (py_le (PyFloat (fst k1)) (PyFloat (fst k2))).
  rewrite !py_eq_val, !py_le_val.
  destruct (mixed_compare (PyFloat (fst k1)) (PyFloat (fst k2))) as [[]|];
    cbn; auto.
  destruct (mixed_compare (snd k1) (snd k2)) as [[]|]; reflexivity.
Qed.

Lemma key_lt_asym (k1 k2 : key) : key_lt k1 k2 = true -> key_lt k2 k1 = false.
Proof.
  rewrite !key_lt_val. unfold dcmp, hcmp.
  rewrite (mixed_compare_antisym (PyFloat (fst k1)) (PyFloat (fst k2))).
  rewrite (mixed_compare_antisym (snd k1) (snd k2)).
  destruct (mixed_compare (PyFloat (fst k1)) (PyFloat (fst k2))) as [[]|];
    cbn; try discriminate; auto.
  destruct (mixed_compare (snd k1) (snd k2)) as [[]|]; cbn; auto.
Qed.

Lemma key_lt_irrefl (k : key) : key_lt k k = false.
Proof.
  destruct (key_lt k k) eqn:E; auto.
  pose proof (key_lt_asym _ _ E). congruence.
Qed.

Lemma key_lt_trans (k1 k2 k3 : key) :
  key_lt k1 k2 = true -> key_lt k2 k3 = true -> key_lt k1 k3 = true.
Proof.
  rewrite !key_lt_val. unfold dcmp, hcmp.
  destruct (mixed_compare (PyFloat (fst k1)) (PyFloat (fst k2)))
    as [c1|] eqn:D12; [|discriminate].
  destruct (mixed_compare (PyFloat (fst k2)) (PyFloat (fst k3)))
    as [c2|] eqn:D23; [|destruct c1; discriminate].
  pose proof (mixed_compare_trans _ _ _ D12 D23) as HD.
  destruct c1, c2; cbn; try discriminate; try (rewrite HD; reflexivity).
  rewrite HD. cbn.
  destruct (mixed_compare (snd k1) (snd k2)) as [d1|] eqn:H12;
    [|discriminate].
  destruct (mixed_compare (snd k2) (snd k3)) as [d2|] eqn:H23;
    [|destruct d1; discriminate].
  pose proof (mixed_compare_trans _ _ _ H12 H23) as HH.
  destruct d1, d2; cbn; try discriminate. rewrite HH. reflexivity.
Qed.

(** Between keys whose components are numbers (no NaN), "not greater"
    is "less or equal". *)
Lemma key_not_lt_le (k1 k2 : key) :
  dcmp k1 k2 <> None -> hcmp k1 k2 <> None ->
  key_lt k2 k1 = false -> key_le k1 k2 = true.
Proof.
  rewrite key_lt_val, key_le_val. unfold dcmp, hcmp.
  rewrite (mixed_compare_antisym (PyFloat (fst k1)) (PyFloat (fst k2))).
  rewrite (mixed_compare_antisym (snd k1) (snd k2)).
  destruct (mixed_compare (PyFloat (fst k1)) (PyFloat (fst k2))) as [[]|];
    cbn; try congruence.
  destruct (mixed_compare (snd k1) (snd k2)) as [[]|]; cbn; congruence.
Qed.

Section MinSpec.
Context {A : Type} (kf : A -> result key).

Lemma min_loop_spec (rest : list A) :
  forall best bk r,
    kf best = Ok bk -> min_loop kf best bk rest = Ok r ->
    exists kr,
      kf r = Ok kr /\ (kr = bk \/ key_lt kr bk = true) /\
      forall x, In x (best :: rest) ->
                exists kx, kf x = Ok kx /\ key_lt kx kr = false.
Proof.
  induction rest as [|x rest IH]; cbn [min_loop]; intros best bk r Hb Hr.
  - inversion Hr; subst. exists bk. repeat split; auto.
    intros x [<-|[]]. exists bk. split; auto. apply key_lt_irrefl.
  - destruct (kf x) as [k|e] eqn:Hx; cbn [rbind] in Hr; try discriminate.
    destruct (key_lt k bk) eqn:Hlt.
    + destruct (IH x k r Hx Hr) as (kr & Hkr & Hrel & Hall).
      assert (Hrb : key_lt kr bk = true).
      { destruct Hrel as [->|Hrel]; auto. eapply key_lt_trans; eauto. }
      exists kr. repeat split; auto.
      intros y [<-|Hy]; auto.
      exists bk. split; auto. now apply key_lt_asym.
    + destruct (IH best bk r Hb Hr) as (kr & Hkr & Hrel & Hall).
      exists kr. repeat split; auto.
      intros y [<-|[<-|Hy]].
      * apply Hall. left; auto.
      * exists k. split; auto.
        destruct Hrel as [->|Hrel]; auto.
        destruct (key_lt k kr) eqn:E; auto.
        rewrite (key_lt_trans _ _ _ E Hrel) in Hlt. discriminate.
      * apply Hall. right; auto.
Qed.

Lemma min_by_spec (l : list A) (r : A) :
  min_by kf l = Ok (Some r) ->
  In r l /\
  exists kr, kf r = Ok kr /\
             forall x, In x l -> exists kx, kf x = Ok kx /\ key_lt kx kr = false.
Proof.
  intros Hm. split; [eapply min_by_in; eauto|].
  destruct l as [|x rest]; cbn [min_by] in Hm; try discriminate.
  destruct (kf x) as [k|e] eqn:Hx; cbn [rbind] in Hm; try discriminate.
  destruct (min_loop kf x k rest) as [b|e] eqn:Hl; cbn [rbind] in Hm;
    try discriminate.
  inversion Hm; subst b.
  destruct (@min_loop_spec rest x k r Hx Hl) as (kr & Hkr & _ & Hall).
  exists kr. split; auto.
Qed.
End MinSpec.

Lemma SFsign_is_number (sg : bool) (r : spec_float) :
  SFsign_is sg r = true -> SFval r <> None.
Proof. destruct r as [s|s| |s m e]; cbn; try discriminate; destruct s; discriminate. Qed.

Lemma float_of_int_100 : float_of_int 100 = Ok 100%float.
Proof. vm_compute. reflexivity. Qed.

Lemma Prim2SF_100 :
  Prim2SF 100 = S754_finite false 7036874417766400%positive (-46)%Z.
Proof. vm_compute. reflexivity. Qed.

Lemma float_self_eq_number (d : float) :
  (d =? d)%float = true -> pyval (PyFloat d) <> None.
Proof.
  change (d =? d)%float with (py_eq (PyFloat d) (PyFloat d)).
  rewrite py_eq_val. unfold mixed_compare.
  destruct (pyval (PyFloat d)); [discriminate|]. cbn. discriminate.
Qed.

Lemma healthy_key_number (s : ServerInfo) (k : pynum) :
  healthy s = true -> py_sub (PyInt 100) (health_score s) = Ok k ->
  pyval k <> None.
Proof.
  unfold healthy. destruct (health_score s) as [z|f]; cbn [py_sub].
  - intros _ Hk. inversion Hk. discriminate.
  - rewrite float_of_int_100. cbn [rbind]. intros Hh Hk.
    inversion Hk; subst k. clear Hk.
    apply positive_of_gt in Hh; [|lia].
    cbn [pyval]. rewrite sub_spec, Prim2SF_100.
    destruct (Prim2SF f) as [sg|sg| |sg m e]; try discriminate.
    + destruct sg; discriminate.
    + cbn [SF64sub SFsub]. eapply SFsign_is_number.
      apply binary_normalize_sign.
Qed.

Section SelectMin.
Context `{Builtins}.

Lemma selection_key_inv (loc : Coordinate) (s : ServerInfo) (k : key) :
  selection_key loc s = Ok k ->
  calculate_network_distance loc (location s) = Ok (fst k) /\
  py_sub (PyInt 100) (health_score s) = Ok (snd k).
Proof.
  unfold selection_key.
  destruct (calculate_network_distance loc (location s)) as [d|e];
    cbn [rbind]; try discriminate.
  destruct (py_sub (PyInt 100) (health_score s)) as [h|e];
    cbn [rbind]; try discriminate.
  intros Hk. inversion Hk. auto.
Qed.
End SelectMin.

(** The key of a returned server is minimal among the healthy ones. *)
Lemma select_result_minimal `{Builtins}
  (loc : Coordinate) (w w' : World) (a : ref) :
  select_optimal_server loc w = (Ok (Some a), w') ->
  exists da ka,
    calculate_network_distance loc (location (heap w a)) = Ok da /\
    py_sub (PyInt 100) (health_score (heap w a)) = Ok ka /\
    forall b,
      In b (dict_values (servers w)) ->
      py_gt (health_score (heap w b)) (PyInt 50) = true ->
      exists db kb,
        calculate_network_distance loc (location (heap w b)) = Ok db /\
        py_sub (PyInt 100) (health_score (heap w b)) = Ok kb /\
        key_lt (db, kb) (da, ka) = false /\
        ((da =? da)%float = true -> (db =? db)%float = true ->
         key_le (da, ka) (db, kb) = true).
Proof.
  intros Hs. pose proof (select_in_healthy _ _ Hs) as [_ Hin].
  rewrite select_unfold in Hs. apply (f_equal fst) in Hs. cbn [fst] in Hs.
  destruct (healthy_servers w) as [|x hs] eqn:E; [destruct Hin|].
  rewrite <- E in Hs, Hin.
  assert (Hm : min_by (fun a => selection_key loc (heap w a))
                 (healthy_servers w) = Ok (Some a))
    by (rewrite E in *; exact Hs).
  apply min_by_spec in Hm. destruct Hm as (_ & [da ka] & Hka & Hall).
  apply selection_key_inv in Hka. destruct Hka as [Hda Hha].
  cbn [fst snd] in Hda, Hha. exists da, ka. repeat split; auto.
  intros b Hreg Hhb.
  assert (Hb : In b (healthy_servers w))
    by (unfold healthy_servers; apply filter_In; split; auto).
  destruct (Hall b Hb) as ([db kb] & Hkb & Hlt).
  apply selection_key_inv in Hkb. destruct Hkb as [Hdb Hhb'].
  cbn [fst snd] in Hdb, Hhb'. exists db, kb. repeat split; auto.
  intros Na Nb. apply key_not_lt_le; auto.
  - unfold dcmp. cbn [fst]. apply mixed_compare_total;
      now apply float_self_eq_number.
  - unfold hcmp. cbn [snd]. apply mixed_compare_total.
    + apply (@healthy_key_number (heap w a)); auto.
      unfold healthy_servers in Hin. apply filter_In in Hin. tauto.
    + apply (@healthy_key_number (heap w b)); auto.
Qed.

Lemma min_loop_total {A} (kf : A -> result key) (rest : list A) :
  (forall x, In x rest -> exists k, kf x = Ok k) ->
  forall best bk, exists r, min_loop kf best bk rest = Ok r.
Proof.
  induction rest as [|x rest IH]; intros Hk best bk; cbn [min_loop].
  - now exists best.
  - destruct (Hk x) as [k Hx]; [left; auto|]. rewrite Hx. cbn [rbind].
    destruct (key_lt k bk); apply IH; intros y Hy; apply Hk; right; auto.
Qed.

Lemma min_by_total {A} (kf : A -> result key) (l : list A) :
  l <> [] -> (forall x, In x l -> exists k, kf x = Ok k) ->
  exists r, min_by kf l = Ok (Some r).
Proof.
  destruct l as [|x rest]; [congruence|]. intros _ Hk. cbn [min_by].
  destruct (Hk x) as [k Hx]; [left; auto|]. rewrite Hx. cbn [rbind].
  assert (Hrest : forall y, In y rest -> exists k', kf y = Ok k')
    by (intros y Hy; apply Hk; right; auto).
  destruct (min_loop_total kf rest Hrest x k) as [r Hr].
  rewrite Hr. now exists r.
Qed.

(** C3: when some registered server is healthy and the keys of the
    healthy servers can be computed (the distance function does not
    raise), [select_optimal_server] returns a healthy registered server
    whose key [(distance(client, location), 100 - health_score)] is
    minimal among the keys of all healthy registered servers in the
    lexicographic order of tuples: no healthy server has a strictly
    smaller key, and whenever the two distances are numbers (not NaN)
    the returned key is less than or equal to the other one. *)
Theorem select_optimal_server_minimizes `{Builtins}
  (loc : Coordinate) (w : World) :
  (exists b, In b (dict_values (servers w)) /\
             py_gt (health_score (heap w b)) (PyInt 50) = true) ->
  (forall b, In b (dict_values (servers w)) ->
             py_gt (health_score (heap w b)) (PyInt 50) = true ->
             exists k, selection_key loc (heap w b) = Ok k) ->
  exists a da ka,
    select_optimal_server loc w = (Ok (Some a), w) /\
    In a (dict_values (servers w)) /\
    py_gt (health_score (heap w a)) (PyInt 50) = true /\
    calculate_network_distance loc (location (heap w a)) = Ok da /\
    py_sub (PyInt 100) (health_score (heap w a)) = Ok ka /\
    forall b,
      In b (dict_values (servers w)) ->
      py_gt (health_score (heap w b)) (PyInt 50) = true ->
      exists db kb,
        calculate_network_distance loc (location (heap w b)) = Ok db /\
        py_sub (PyInt 100) (health_score (heap w b)) = Ok kb /\
        key_lt (db, kb) (da, ka) = false /\
        ((da =? da)%float = true -> (db =? db)%float = true ->
         key_le (da, ka) (db, kb) = true).
Proof.
  intros (b0 & Hreg0 & Hh0) Hkeys.
  assert (Hne : healthy_servers w <> []).
  { intros E. assert (Hin : In b0 (healthy_servers w))
      by (unfold healthy_servers; apply filter_In; split; auto).
    rewrite E in Hin. destruct Hin. }
  assert (Hall : forall x, In x (healthy_servers w) ->
                           exists k, selection_key loc (heap w x) = Ok k).
  { intros x Hx. unfold healthy_servers in Hx. apply filter_In in Hx.
    destruct Hx as [Hreg Hh]. now apply Hkeys. }
  destruct (min_by_total (fun a => selection_key loc (heap w a)) Hne Hall)
    as [a Ha].
  assert (Hs : select_optimal_server loc w = (Ok (Some a), w)).
  { rewrite select_unfold. f_equal.
    destruct (healthy_servers w); [congruence|exact Ha]. }
  destruct (select_in_healthy _ _ Hs) as [_ Hin].
  unfold healthy_servers in Hin. apply filter_In in Hin.
  destruct Hin as [Hreg Hh].
  destruct (select_result_minimal _ _ Hs) as (da & ka & Hda & Hka & Hmin).
  exists a, da, ka. repeat split; auto.
Qed.

Lemma select_optimal_server_minimizes_witness :
  exists a da ka,
    @select_optimal_server stub_builtins (coord 40.5 (-74)) world3
      = (Ok (Some a), world3) /\
    In a (dict_values (servers world3)) /\
    py_gt (health_score (heap world3 a)) (PyInt 50) = true /\
    @calculate_network_distance stub_builtins (coord 40.5 (-74))
      (location (heap world3 a)) = Ok da /\
    py_sub (PyInt 100) (health_score (heap world3 a)) = Ok ka /\
    forall b,
      In b (dict_values (servers world3)) ->
      py_gt (health_score (heap world3 b)) (PyInt 50) = true ->
      exists db kb,
        @calculate_network_distance stub_builtins (coord 40.5 (-74))
          (location (heap world3 b)) = Ok db /\
        py_sub (PyInt 100) (health_score (heap world3 b)) = Ok kb /\
        key_lt (db, kb) (da, ka) = false /\
        ((da =? da)%float = true -> (db =? db)%float = true ->
         key_le (da, ka) (db, kb) = true).
Proof.
  apply (@select_optimal_server_minimizes stub_builtins
           (coord 40.5 (-74)) world3).
  - exists 0%nat. split; [left; reflexivity|reflexivity].
  - intros b Hb _.
    change (dict_values (servers world3)) with [0; 1; 2]%nat in Hb.
    destruct Hb as [<-|[<-|[<-|[]]]]; eexists; vm_compute; reflexivity.
Defined.

(** The scenario of the specification: three servers with full health,
    a client near New York is sent to the New York server; once that
    server has degraded, the next closest healthy one is chosen. *)
Example select_new_york :
  fst (@select_optimal_server stub_builtins (coord 40.75 (-73.9375)) world3)
    = Ok (Some 0%nat) /\
  fst (@select_optimal_server stub_builtins (coord 40.75 (-73.9375))
         (run health_check_pass world3_errors))
    = Ok (Some 1%nat).
Proof. split; vm_compute; reflexivity. Qed.

(** ** The health check *)

Lemma upd_same (h : ref -> ServerInfo) (a : ref) (s : ServerInfo) :
  upd h a s a = s.
Proof. unfold upd. now rewrite Nat.eqb_refl. Qed.

Lemma upd_other (h : ref -> ServerInfo) (a b : ref) (s : ServerInfo) :
  b <> a -> upd h a s b = h b.
Proof.
  intros Hne. unfold upd. destruct (Nat.eqb b a) eqn:E; auto.
  apply Nat.eqb_eq in E. contradiction.
Qed.

(** One visit: the visited record becomes [checked], the clock is read
    once, nothing else changes and no exception escapes. *)
Lemma check_server_spec (a : ref) (w : World) :
  fst (check_server a w) = Ok tt /\
  (forall b, heap (run (check_server a) w) b =
             if Nat.eqb b a then checked (heap w a) (clock w (ticks w))
             else heap w b) /\
  servers (run (check_server a) w) = servers w /\
  clock (run (check_server a) w) = clock w /\
  next_ref (run (check_server a) w) = next_ref w /\
  ticks (run (check_server a) w) = S (ticks w).
Proof.
  unfold run, check_server, try_except, bind, time_time, update_health,
    bind, deref, checked.
  cbn [heap ticks clock servers next_ref].
  destruct (py_gt (PyFloat (clock w (ticks w) - last_health_check (heap w a)))
              (PyInt 30)).
  - unfold lift.
    destruct (py_sub (health_score (heap w a))
                (PyInt (error_count (heap w a) * 10))) as [x|e];
      cbn; repeat split; auto; intros b; unfold upd;
      destruct (Nat.eqb b a) eqn:E; auto.
    all: apply Nat.eqb_eq in E; subst b; rewrite ?Nat.eqb_refl; reflexivity.
  - cbn. repeat split; auto. intros b. destruct (Nat.eqb b a) eqn:E; auto.
    apply Nat.eqb_eq in E. now subst.
Qed.

Lemma for_each_check_spec (l : list ref) :
  NoDup l ->
  forall w,
    fst (for_each l check_server w) = Ok tt /\
    (forall i a, nth_error l i = Some a ->
                 heap (run (for_each l check_server) w) a =
                 checked (heap w a) (clock w (ticks w + i))) /\
    (forall b, ~ In b l ->
               heap (run (for_each l check_server) w) b = heap w b) /\
    servers (run (for_each l check_server) w) = servers w /\
    clock (run (for_each l check_server) w) = clock w /\
    next_ref (run (for_each l check_server) w) = next_ref w /\
    ticks (run (for_each l check_server) w) = (ticks w + List.length l)%nat.
Proof.
  induction l as [|x l IH]; intros Hnd w.
  - cbn. repeat split; auto. intros i a Hi. destruct i; discriminate.
  - inversion Hnd as [|? ? Hx Hnd']; subst.
    destruct (check_server_spec x w) as (Hr & Hh & Hs & Hc & Hn & Ht).
    unfold run in *. cbn [for_each]. unfold bind at 1 2 3 4 5 6 7.
    destruct (check_server x w) as [r w1]. cbn [fst snd] in *. subst r.
    destruct (IH Hnd' w1) as (Hr' & Hh' & Ho' & Hs' & Hc' & Hn' & Ht').
    repeat split.
    + exact Hr'.
    + intros i a Hi. destruct i as [|i]; cbn [nth_error] in Hi.
      * inversion Hi; subst a. rewrite (Ho' x Hx), Hh, Nat.eqb_refl.
        now rewrite Nat.add_0_r.
      * rewrite (Hh' i a Hi), Hh, Hc, Ht.
        assert (Hne : a <> x).
        { intros ->. apply Hx. eapply nth_error_In; eauto. }
        apply Nat.eqb_neq in Hne. rewrite Hne.
        now rewrite Nat.add_succ_r.
    + intros b Hb. rewrite Ho' by (intros Hin; apply Hb; right; auto).
      rewrite Hh. destruct (Nat.eqb b x) eqn:E; auto.
      apply Nat.eqb_eq in E. subst. exfalso. apply Hb. left; auto.
    + congruence.
    + congruence.
    + congruence.
    + rewrite Ht', Ht. cbn [List.length]. lia.
Qed.

(** C5: in one pass of the health check over a registry whose entries
    are distinct records, the record visited at position [i], with [t]
    the [i]-th value read from the clock: if [t - last_health_check > 30]
    its score becomes exactly [max(0, health_score - error_count * 10)]
    and its time of last check [t] (when that subtraction raises, the
    exception is swallowed and the record stays as it was); otherwise the
    record is unchanged.  Records that are not registered and the
    registry itself are unchanged. *)
Theorem health_check_pass_scores (w : World) :
  NoDup (dict_values (servers w)) ->
  let w' := run health_check_pass w in
  fst (health_check_pass w) = Ok tt /\
  servers w' = servers w /\
  (forall b, ~ In b (dict_values (servers w)) -> heap w' b = heap w b) /\
  forall i a,
    nth_error (dict_values (servers w)) i = Some a ->
    let s := heap w a in
    let t := clock w (ticks w + i) in
    if py_gt (PyFloat (t - last_health_check s)%float) (PyInt 30) then
      match py_sub (health_score s) (PyInt (error_count s * 10)) with
      | Ok x =>
          health_score (heap w' a) = py_max (PyInt 0) x /\
          last_health_check (heap w' a) = t /\
          error_count (heap w' a) = error_count s /\
          total_requests (heap w' a) = total_requests s /\
          server_id (heap w' a) = server_id s
      | Raise _ => heap w' a = s
      end
    else heap w' a = s.
Proof.
  intros Hnd. cbn zeta.
  destruct (for_each_check_spec Hnd w) as (Hr & Hh & Ho & Hs & _).
  unfold run, health_check_pass, bind, get_servers in *. cbn [fst snd].
  repeat split; auto.
  intros i a Hi. rewrite (Hh i a Hi). unfold checked.
  destruct (py_gt _ _); auto.
  destruct (py_sub _ _); auto.
Qed.

Lemma health_check_pass_scores_witness :
  fst (health_check_pass world3_errors) = Ok tt /\
  health_score (heap (run health_check_pass world3_errors) 0) = PyInt 0 /\
  health_score (heap (run health_check_pass world3_errors) 1)
    = PyFloat 100.
Proof.
  assert (Hnd : NoDup (dict_values (servers world3_errors))).
  { change (dict_values (servers world3_errors)) with [0; 1; 2]%nat.
    repeat constructor; cbn; intuition discriminate. }
  destruct (health_check_pass_scores world3_errors Hnd)
    as (Hr & _ & _ & Hv).
  split; [exact Hr|]. split.
  - exact (proj1 (Hv 0%nat 0%nat eq_refl)).
  - exact (proj1 (Hv 1%nat 1%nat eq_refl)).
Defined.

(** ** Storing a score *)

Lemma max0_clamp (x : pynum) :
  py_le x (PyInt 100) = true ->
  py_eq (py_max (PyInt 0) x) (spec_clamp x (PyInt 0) (PyInt 100)) = true.
Proof.
  unfold py_max, py_gt, spec_clamp.
  rewrite py_le_val, !py_lt_val.
  rewrite (mixed_compare_antisym x (PyInt 100)).
  rewrite (mixed_compare_antisym (PyInt 0) x).
  destruct (mixed_compare x (PyInt 100)) as [c100|] eqn:E100;
    [|discriminate].
  assert (Hv : exists v, pyval x = Some v).
  { unfold mixed_compare in E100. destruct (pyval x) as [v|]; eauto.
    discriminate. }
  destruct Hv as [v Hv].
  assert (E0 : mixed_compare (PyInt 0) x
               = Some (xcompare (Fin (0 * 2 ^ scale)) v))
    by (unfold mixed_compare; cbn [pyval]; now rewrite Hv).
  rewrite E0. cbn [option_map].
  destruct (xcompare (Fin (0 * 2 ^ scale)) v) eqn:C0; cbn [CompOpp cmp_is].
  - destruct c100; try discriminate; cbn [cmp_is option_map CompOpp orb];
      intros _; rewrite py_eq_val, E0; reflexivity.
  - destruct c100; try discriminate; cbn [cmp_is option_map CompOpp orb];
      intros _; rewrite py_eq_val; unfold mixed_compare;
      rewrite Hv, xcompare_refl; reflexivity.
  - intros _. reflexivity.
Qed.

(** C6 (as the code has it): a visit of the health check at time [t]
    stores a new score only under the guard [t - last_health_check > 30];
    the stored score is [max(0, s)] for [s = health_score - error_count *
    10], which agrees with [clamp(s, 0, 100)] whenever [s <= 100] (there
    is no upper clamp); the time of last check becomes [t], and the guard
    makes [t] strictly greater than the value it replaces.  When the
    guard fails, in particular whenever [t] is not greater than the
    stored time, the record is left unchanged. *)
Theorem update_health_stores (a : ref) (t : float) (w : World) :
  let s := heap w a in
  let w' := run (update_health a t) w in
  servers w' = servers w /\
  (forall b, b <> a -> heap w' b = heap w b) /\
  (py_gt (PyFloat (t - last_health_check s)%float) (PyInt 30) = true ->
   forall x,
     py_sub (health_score s) (PyInt (error_count s * 10)) = Ok x ->
     health_score (heap w' a) = py_max (PyInt 0) x /\
     (py_le x (PyInt 100) = true ->
      py_eq (health_score (heap w' a))
        (spec_clamp x (PyInt 0) (PyInt 100)) = true) /\
     last_health_check (heap w' a) = t /\
     (last_health_check s <? t)%float = true) /\
  (py_gt (PyFloat (t - last_health_check s)%float) (PyInt 30) = false ->
   heap w' a = s) /\
  ((last_health_check s <? t)%float = false -> heap w' a = s).
Proof.
  cbn zeta.
  assert (Hcore :
    servers (run (update_health a t) w) = servers w /\
    (forall b, heap (run (update_health a t) w) b =
               if Nat.eqb b a then checked (heap w a) t else heap w b)).
  { unfold run, update_health, bind, deref, checked, lift.
    cbn [heap servers].
    destruct (py_gt _ _).
    - destruct (py_sub _ _); cbn; split; auto; intros b; unfold upd;
        destruct (Nat.eqb b a) eqn:E; auto;
        apply Nat.eqb_eq in E; subst b; rewrite ?Nat.eqb_refl; reflexivity.
    - cbn. split; auto. intros b. destruct (Nat.eqb b a) eqn:E; auto.
      apply Nat.eqb_eq in E. now subst. }
  destruct Hcore as [Hs Hh].
  assert (Ha : heap (run (update_health a t) w) a = checked (heap w a) t)
    by (rewrite Hh, Nat.eqb_refl; reflexivity).
  split; [exact Hs|]. split.
  { intros b Hb. rewrite Hh. apply Nat.eqb_neq in Hb. now rewrite Hb. }
  split.
  { intros Hg x Hx. rewrite Ha. unfold checked. rewrite Hg, Hx. cbn.
    repeat split; auto.
    - intros Hle. now apply max0_clamp.
    - apply (@elapsed_gt_lt 30); auto. lia. }
  split.
  { intros Hg. rewrite Ha. unfold checked. now rewrite Hg. }
  intros Hlt. rewrite Ha. unfold checked.
  destruct (py_gt _ _) eqn:Hg; auto.
  apply (@elapsed_gt_lt 30) in Hg; [congruence|lia].
Qed.

Lemma update_health_stores_witness :
  health_score (heap (run (update_health 0%nat 1000%float) world3_errors) 0)
    = py_max (PyInt 0) (PyFloat 0) /\
  (py_le (PyFloat 0) (PyInt 100) = true ->
   py_eq (health_score (heap (run (update_health 0%nat 1000%float) world3_errors) 0))
     (spec_clamp (PyFloat 0) (PyInt 0) (PyInt 100)) = true) /\
  last_health_check (heap (run (update_health 0%nat 1000%float) world3_errors) 0)
    = 1000%float /\
  (last_health_check (heap world3_errors 0%nat) <? 1000)%float = true.
Proof.
  apply (proj1 (proj2 (proj2 (update_health_stores 0%nat 1000%float world3_errors))));
    reflexivity.
Defined.

(** C6, as stated, fails: a record registered with score [150.0] and no
    errors keeps [150.0] after its health update, while
    [clamp(150.0, 0, 100)] is [100]. *)
Lemma update_health_no_upper_clamp :
  py_sub (health_score (heap overscored 0))
    (PyInt (error_count (heap overscored 0) * 10)) = Ok (PyFloat 150) /\
  get_server "big" overscored = Some (heap overscored 0) /\
  last_health_check (heap (run health_check_pass overscored) 0)
    = 1000%float /\
  health_score (heap (run health_check_pass overscored) 0) = PyFloat 150 /\
  spec_clamp (PyFloat 150) (PyInt 0) (PyInt 100) = PyInt 100 /\
  py_eq (health_score (heap (run health_check_pass overscored) 0))
    (spec_clamp (PyFloat 150) (PyInt 0) (PyInt 100)) = false.
Proof. vm_compute. repeat split; reflexivity. Qed.

(** ** Scores and times of reachable states *)

Lemma leb_val (a b : float) :
  (a <=? b)%float = py_le (PyFloat a) (PyFloat b).
Proof. reflexivity. Qed.

Lemma float_leb_trans (a b c : float) :
  (a <=? b)%float = true -> (b <=? c)%float = true -> (a <=? c)%float = true.
Proof.
  rewrite !leb_val, !py_le_val.
  destruct (mixed_compare (PyFloat a) (PyFloat b)) as [c1|] eqn:E1;
    [|discriminate].
  destruct (mixed_compare (PyFloat b) (PyFloat c)) as [c2|] eqn:E2;
    [|destruct c1; discriminate].
  pose proof (mixed_compare_trans _ _ _ E1 E2) as HT.
  destruct c1, c2; cbn; try discriminate; rewrite HT; reflexivity.
Qed.

Lemma float_leb_refl (a : float) :
  (a =? a)%float = true -> (a <=? a)%float = true.
Proof.
  rewrite leb_val, py_le_val.
  change (a =? a)%float with (py_eq (PyFloat a) (PyFloat a)).
  rewrite py_eq_val. intros ->. apply orb_true_r.
Qed.

Lemma float_ltb_leb (a b : float) :
  (a <? b)%float = true -> (a <=? b)%float = true.
Proof.
  rewrite leb_val, py_le_val.
  change (a <? b)%float with (py_lt (PyFloat a) (PyFloat b)).
  rewrite py_lt_val. intros ->. reflexivity.
Qed.

Lemma float_ltb_number (a b : float) :
  (a <? b)%float = true -> (b =? b)%float = true.
Proof.
  change (a <? b)%float with (py_lt (PyFloat a) (PyFloat b)).
  change (b =? b)%float with (py_eq (PyFloat b) (PyFloat b)).
  rewrite py_lt_val, py_eq_val. unfold mixed_compare.
  destruct (pyval (PyFloat a)); [|discriminate].
  destruct (pyval (PyFloat b)); [|discriminate].
  intros _. now rewrite xcompare_refl.
Qed.

Lemma pynum_eqb_eq (x y : pynum) : pynum_eqb x y = true -> x = y.
Proof.
  destruct x as [a|a], y as [b|b]; cbn; try discriminate.
  - intros E. apply Z.eqb_eq in E. now subst.
  - intros E. apply Leibniz.eqb_spec in E. now subst.
Qed.

Lemma score_okb_In (x : pynum) : score_okb x = true -> In x score_values.
Proof.
  unfold score_okb. intros E. apply existsb_exists in E.
  destruct E as (y & Hy & Hxy). apply pynum_eqb_eq in Hxy. now subst.
Qed.

Lemma score_table : score_table_ok = true.
Proof. vm_compute. reflexivity. Qed.

Lemma score_bounds (h : pynum) :
  In h score_values ->
  py_le (PyInt 0) h = true /\ py_le h (PyInt 100) = true.
Proof.
  intros Hin. repeat (destruct Hin as [<-|Hin]; [vm_compute; auto|]).
  destruct Hin.
Qed.

Lemma score_float_exponent (c : float) :
  In (PyFloat c) score_values ->
  exists m e, Prim2SF c = S754_finite false m e /\ (e < -45)%Z.
Proof.
  intros Hin. destruct Hin as [Hin|Hin]; [discriminate|].
  repeat (destruct Hin as [Hin|Hin];
          [inversion Hin; subst c; vm_compute; eexists _, _;
           split; reflexivity|]).
  destruct Hin.
Qed.

Lemma score_step (h x : pynum) (e : Z) :
  In h score_values -> (0 <= e)%Z ->
  py_sub h (PyInt (e * 10)) = Ok x ->
  In (py_max (PyInt 0) x) score_values.
Proof.
  intros Hh He Hx. destruct (Z.le_gt_cases e 12) as [Hsmall|Hbig].
  - pose proof score_table as T. unfold score_table_ok in T.
    rewrite forallb_forall in T. specialize (T h Hh).
    rewrite forallb_forall in T. specialize (T (Z.to_nat e)).
    rewrite Z2Nat.id, Hx in T by lia. apply score_okb_In. apply T.
    apply in_seq. lia.
  - destruct h as [z|c].
    + assert (z = 0%Z).
      { destruct Hh as [Hh|Hh]; [now inversion Hh|].
        repeat (destruct Hh as [Hh|Hh]; [discriminate|]). destruct Hh. }
      subst z. cbn [py_sub] in Hx. injection Hx as Hx. subst x.
      unfold py_max, py_gt, py_lt.
      match goal with
      | |- context [Z.ltb ?u ?v] => destruct (Z.ltb_spec u v); [lia|]
      end.
      left; reflexivity.
    + cbn [py_sub] in Hx.
      destruct (float_of_int (e * 10)) as [f|ex] eqn:Hf; cbn [rbind] in Hx;
        try discriminate.
      inversion Hx; subst x. clear Hx.
      apply float_of_int_large in Hf; [|lia].
      destruct Hf as (m & e' & Hm & _ & He').
      destruct (score_float_exponent Hh) as (mh & eh & Hc & Heh).
      pose proof (large_not_lt _ _ Hm He' Hc Heh) as Hnlt.
      unfold py_max.
      destruct (py_gt (PyFloat (c - f)) (PyInt 0)) eqn:G.
      * apply (@elapsed_gt_lt 0) in G; [congruence|lia].
      * left; reflexivity.
Qed.

Lemma checked_ok (s : ServerInfo) (t : float) :
  record_ok s ->
  record_ok (checked s t) /\
  (last_health_check s <=? last_health_check (checked s t))%float = true.
Proof.
  intros (Hs & He & Hl). unfold checked.
  destruct (py_gt (PyFloat (t - last_health_check s)) (PyInt 30)) eqn:G.
  - destruct (py_sub (health_score s) (PyInt (error_count s * 10)))
      as [x|ex] eqn:Hx.
    + apply (@elapsed_gt_lt 30) in G; [|lia]. cbn. split.
      * repeat split; auto.
        -- eapply score_step; eauto.
        -- eapply float_ltb_number; eauto.
      * now apply float_ltb_leb.
    + split; [repeat split; auto|]. now apply float_leb_refl.
  - split; [repeat split; auto|]. now apply float_leb_refl.
Qed.

Lemma check_server_ok (a : ref) (w : World) :
  state_ok w ->
  state_ok (run (check_server a) w) /\ time_mono w (run (check_server a) w) /\
  next_ref (run (check_server a) w) = next_ref w.
Proof.
  intros [Hrec Hreg].
  destruct (check_server_spec a w) as (_ & Hh & Hs & _ & Hn & _).
  split; [split|split]; auto.
  - intros b Hb. rewrite Hn in Hb. rewrite Hh.
    destruct (Nat.eqb b a) eqn:E; auto.
    apply Nat.eqb_eq in E. subst b.
    exact (proj1 (checked_ok (clock w (ticks w)) (Hrec a Hb))).
  - intros b Hb. rewrite Hs in Hb. rewrite Hn. auto.
  - intros b Hb. rewrite Hh. destruct (Nat.eqb b a) eqn:E.
    + apply Nat.eqb_eq in E. subst b.
      exact (proj2 (checked_ok (clock w (ticks w)) (Hrec a Hb))).
    + apply float_leb_refl. apply Hrec; auto.
Qed.

Lemma for_each_check_ok (l : list ref) :
  forall w,
    state_ok w ->
    state_ok (run (for_each l check_server) w) /\
    time_mono w (run (for_each l check_server) w) /\
    next_ref (run (for_each l check_server) w) = next_ref w.
Proof.
  induction l as [|x l IH]; intros w Hw.
  - cbn. split; [|split]; auto. intros a Ha. apply float_leb_refl.
    apply Hw; auto.
  - destruct (check_server_ok x Hw) as (H1 & M1 & N1).
    destruct (check_server_spec x w) as (Hr & _).
    unfold run in *. cbn [for_each]. unfold bind at 1 2 3.
    destruct (check_server x w) as [r w1]. cbn [fst snd] in *. subst r.
    destruct (IH w1 H1) as (H2 & M2 & N2).
    split; [|split]; auto.
    + intros a Ha. eapply float_leb_trans; [apply M1; auto|].
      apply M2. now rewrite N1.
    + congruence.
Qed.

Lemma dict_values_set {V} (k : string) (v : V) (d : dict V) (x : V) :
  In x (dict_values (dict_set k v d)) -> x = v \/ In x (dict_values d).
Proof.
  induction d as [|[k' v'] d IH]; cbn.
  - intros [<-|[]]. auto.
  - destruct (String.eqb k k'); cbn.
    + intros [<-|Hin]; auto.
    + intros [<-|Hin]; auto. destruct (IH Hin); auto.
Qed.

Lemma dict_values_del {V} (k : string) (d : dict V) (x : V) :
  In x (dict_values (dict_del k d)) -> In x (dict_values d).
Proof.
  induction d as [|[k' v'] d IH]; cbn; auto.
  destruct (String.eqb k k'); cbn; auto.
  intros [<-|Hin]; auto.
Qed.

Lemma time_mono_same (w w' : World) :
  state_ok w -> (forall a, (a < next_ref w)%nat -> heap w' a = heap w a) ->
  time_mono w w'.
Proof.
  intros [Hrec _] Hsame a Ha. rewrite (Hsame a Ha).
  apply float_leb_refl. apply Hrec; auto.
Qed.

Section Reachable.
Context `{Builtins}.

Lemma step_ok (o : op) (w : World) :
  state_ok w -> valid_op w o ->
  state_ok (step o w) /\ time_mono w (step o w).
Proof.
  intros Hw Hv. pose proof Hw as [Hrec Hreg].
  destruct o as [id hst prt loc|a|id| |loc| |a dreq derr]; cbn [step].
  - (* a new record *)
    split.
    + split; cbn.
      * intros a Ha. unfold upd. destruct (Nat.eqb a (next_ref w)) eqn:E.
        -- repeat split; cbn; auto; try lia.
           do 10 right. left. reflexivity.
        -- apply Hrec. apply Nat.eqb_neq in E. lia.
      * intros a Ha. apply dict_values_set in Ha.
        destruct Ha as [->|Ha]; [lia|apply Hreg in Ha; lia].
    + apply time_mono_same; auto. intros a Ha. cbn. unfold upd.
      destruct (Nat.eqb a (next_ref w)) eqn:E; auto.
      apply Nat.eqb_eq in E. lia.
  - (* registering an existing record *)
    cbn in Hv. split.
    + split; cbn; auto. intros b Hb.
      apply dict_values_set in Hb. destruct Hb as [->|Hb]; auto.
    + apply time_mono_same; auto.
  - (* deregistration *)
    split.
    + unfold run, deregister_server, bind, get_servers.
      destruct (dict_mem id (servers w)); cbn; auto.
      split; cbn; auto. intros b Hb. apply dict_values_del in Hb. auto.
    + apply time_mono_same; auto. intros a Ha.
      unfold run, deregister_server, bind, get_servers.
      destruct (dict_mem id (servers w)); reflexivity.
  - (* a health-check pass *)
    unfold run, health_check_pass, bind, get_servers.
    destruct (for_each_check_ok (dict_values (servers w)) Hw) as (H1 & M1 & _).
    split; auto.
  - (* selection *)
    unfold run. rewrite select_unfold. cbn [snd]. split; auto.
    apply time_mono_same; auto.
  - (* metrics *)
    cbn. split; auto. apply time_mono_same; auto.
  - (* traffic *)
    destruct Hv as (Ha & Hq & He). split.
    + split; cbn; auto. intros b Hb. unfold upd.
      destruct (Nat.eqb b a) eqn:E; auto.
      destruct (Hrec a Ha) as (S1 & S2 & S3). repeat split; cbn; auto. lia.
    + intros b Hb. cbn. unfold upd. destruct (Nat.eqb b a) eqn:E.
      * apply Nat.eqb_eq in E. subst b. cbn.
        apply float_leb_refl. apply Hrec; auto.
      * apply float_leb_refl. apply Hrec; auto.
Qed.

Lemma reachable_ok (w : World) : reachable w -> state_ok w.
Proof.
  induction 1 as [h c|w o Hr IH Hv].
  - split; cbn; intros a Ha; [lia|destruct Ha].
  - now apply step_ok.
Qed.
End Reachable.

(** C7: in every state reached from an empty registry by building and
    registering records with score [100.0], registering and
    deregistering, health-check passes, selections, metrics exports and
    counter increments, every record's score is within [[0, 100]]; and no
    operation makes the time of last check of any existing record
    smaller. *)
Theorem reachable_scores_and_times `{Builtins} (w : World) :
  reachable w ->
  (forall a, (a < next_ref w)%nat ->
     py_le (PyInt 0) (health_score (heap w a)) = true /\
     py_le (health_score (heap w a)) (PyInt 100) = true) /\
  (forall id s, get_server id w = Some s ->
     py_le (PyInt 0) (health_score s) = true /\
     py_le (health_score s) (PyInt 100) = true) /\
  (forall o, valid_op w o ->
     forall a, (a < next_ref w)%nat ->
       (last_health_check (heap w a)
          <=? last_health_check (heap (step o w) a))%float = true).
Proof.
  intros Hr. pose proof (reachable_ok Hr) as Hok.
  pose proof Hok as [Hrec Hreg].
  split; [|split].
  - intros a Ha. apply score_bounds. apply Hrec; auto.
  - intros id s Hs. unfold get_server in Hs.
    destruct (dict_get id (servers w)) as [a|] eqn:G; try discriminate.
    cbn in Hs. inversion Hs; subst s. apply score_bounds. apply Hrec.
    apply Hreg. clear - G. unfold dict_values.
    induction (servers w) as [|[k v] d IH]; cbn in *; try discriminate.
    destruct (String.eqb id k); auto. inversion G. auto.
  - intros o Hv. apply (step_ok o Hok Hv).
Qed.

Lemma reachable_scores_and_times_witness :
  (forall a, (a < next_ref world_checked)%nat ->
     py_le (PyInt 0) (health_score (heap world_checked a)) = true /\
     py_le (health_score (heap world_checked a)) (PyInt 100) = true) /\
  (forall id s, get_server id world_checked = Some s ->
     py_le (PyInt 0) (health_score s) = true /\
     py_le (health_score s) (PyInt 100) = true) /\
  (forall o, valid_op world_checked o ->
     forall a, (a < next_ref world_checked)%nat ->
       (last_health_check (heap world_checked a)
          <=? last_health_check
                (heap (@step stub_builtins o world_checked) a))%float = true).
Proof.
  apply (@reachable_scores_and_times stub_builtins world_checked).
  unfold world_checked.
  apply reach_step; [apply reach_step; [apply reach_step|]|].
  - apply reach_init.
  - exact I.
  - cbn. lia.
  - exact I.
Defined.

Example world_checked_score :
  option_map health_score (get_server "nyc" world_checked) = Some (PyInt 0) /\
  option_map last_health_check (get_server "nyc" world_checked)
    = Some 1000%float.
Proof. vm_compute. split; reflexivity. Qed.

(** ** Registered records are distinct in reachable states *)










Section Distinct.
Context `{Builtins}.



End Distinct.

(* ------------------------------------------------------------------ *)
(** ** Further properties of the registry, the selection and the
    health check *)

(** ** Deregistration *)

Lemma dict_mem_get_none {V} (k : string) (d : dict V) :
  dict_mem k d = false -> dict_get k d = None.
Proof. unfold dict_mem. destruct (dict_get k d); [discriminate|auto]. Qed.

Lemma dict_keys_del_filter {V} (k : string) (d : dict V) :
  NoDup (dict_keys d) ->
  dict_keys (dict_del k d)
  = filter (fun k' => negb (String.eqb k k')) (dict_keys d).
Proof.
  induction d as [|[k' v'] d IH]; cbn; auto.
  intros Hnd. inversion Hnd as [|? ? Hx Hnd']; subst.
  destruct (String.eqb k k') eqn:E; cbn.
  - apply String.eqb_eq in E. subst k'. symmetry.
    clear - Hx. induction d as [|[k1 v1] d IH]; cbn in *; auto.
    destruct (String.eqb k k1) eqn:E; cbn.
    + apply String.eqb_eq in E. subst. exfalso. apply Hx. left; auto.
    + f_equal. apply IH. intros Hin. apply Hx. right; auto.
  - f_equal. apply IH; auto.
Qed.

Lemma dict_del_absent {V} (k : string) (d : dict V) :
  dict_mem k d = false -> dict_del k d = d.
Proof.
  unfold dict_mem. induction d as [|[k' v'] d IH]; cbn; auto.
  destruct (String.eqb k k'); [discriminate|]. intros Hm. now rewrite IH.
Qed.

Lemma dict_del_set_absent {V} (k : string) (v : V) (d : dict V) :
  dict_mem k d = false -> dict_del k (dict_set k v d) = d.
Proof.
  unfold dict_mem. induction d as [|[k' v'] d IH]; cbn.
  - now rewrite String.eqb_refl.
  - destruct (String.eqb k k') eqn:E; [discriminate|]. cbn. rewrite E.
    intros Hm. now rewrite IH.
Qed.

Lemma dict_set_idem {V} (k : string) (v : V) (d : dict V) :
  dict_set k v (dict_set k v d) = dict_set k v d.
Proof.
  induction d as [|[k' v'] d IH]; cbn.
  - now rewrite String.eqb_refl.
  - destruct (String.eqb k k') eqn:E; cbn; rewrite E; auto. now rewrite IH.
Qed.

Lemma dict_mem_set {V} (k : string) (v : V) (d : dict V) :
  dict_mem k (dict_set k v d) = true.
Proof. unfold dict_mem. now rewrite dict_get_set_same. Qed.

(** X1: [deregister_server] never raises and never touches a record.  In
    a registry whose identifiers are distinct it removes the binding of
    the identifier (a later lookup finds nothing), keeps every other
    binding and the order of the remaining identifiers; for an
    identifier that is not registered it changes nothing at all. *)
Theorem deregister_server_removes (id : string) (w : World) :
  NoDup (dict_keys (servers w)) ->
  fst (deregister_server id w) = Ok tt /\
  get_server id (run (deregister_server id) w) = None /\
  (forall k, k <> id ->
     get_server k (run (deregister_server id) w) = get_server k w) /\
  (forall b, heap (run (deregister_server id) w) b = heap w b) /\
  dict_keys (servers (run (deregister_server id) w))
    = filter (fun k => negb (String.eqb id k)) (dict_keys (servers w)) /\
  (dict_mem id (servers w) = false -> run (deregister_server id) w = w).
Proof.
  intros Hnd. unfold run, deregister_server, bind, get_servers, get_server.
  destruct (dict_mem id (servers w)) eqn:E; cbn.
  - repeat split; auto.
    + now rewrite dict_get_del_same.
    + intros k Hk. now rewrite dict_get_del_other.
    + now apply dict_keys_del_filter.
    + discriminate.
  - repeat split; auto.
    + now rewrite dict_mem_get_none.
    + rewrite <- (dict_del_absent id (servers w) E) at 1.
      now apply dict_keys_del_filter.
Qed.

Lemma deregister_server_removes_witness :
  get_server "lax" (run (deregister_server "lax") world3) = None /\
  dict_keys (servers (run (deregister_server "lax") world3))
    = ["nyc"; "sfo"]%string.
Proof.
  assert (Hnd : NoDup (dict_keys (servers world3))).
  { change (dict_keys (servers world3)) with ["nyc"; "lax"; "sfo"]%string.
    repeat constructor; cbn; intuition discriminate. }
  destruct (deregister_server_removes "lax" world3 Hnd)
    as (_ & Hg & _ & _ & Hk & _).
  split; [exact Hg|]. rewrite Hk. reflexivity.
Defined.

(** X2: registering a record under an identifier that is not yet in the
    registry and deregistering that identifier again gives back the
    registry as it was; registering the same record twice is the same as
    registering it once. *)
Theorem register_deregister_round_trip (a : ref) (w : World) :
  (dict_mem (server_id (heap w a)) (servers w) = false ->
   servers (run (deregister_server (server_id (heap w a)))
              (run (register_server a) w)) = servers w) /\
  servers (run (register_server a) (run (register_server a) w))
    = servers (run (register_server a) w) /\
  (forall b,
     heap (run (deregister_server (server_id (heap w a)))
             (run (register_server a) w)) b = heap w b).
Proof.
  unfold run, register_server, deregister_server, bind, get_servers,
    put_servers, deref. cbn [snd servers heap].
  rewrite dict_mem_set. cbn [snd servers heap]. repeat split; auto.
  - intros Hm. now apply dict_del_set_absent.
  - apply dict_set_idem.
Qed.

Lemma register_deregister_round_trip_witness :
  servers (run (deregister_server "nyc")
             (run (register_server 0)
                (run (deregister_server "nyc") world3)))
  = servers (run (deregister_server "nyc") world3).
Proof.
  apply (proj1 (register_deregister_round_trip 0
                  (run (deregister_server "nyc") world3))).
  reflexivity.
Defined.

Lemma dict_get_In {V} (k : string) (v : V) (d : dict V) :
  dict_get k d = Some v -> In (k, v) d.
Proof.
  induction d as [|[k' v'] d IH]; cbn; [discriminate|].
  destruct (String.eqb k k') eqn:E.
  - apply String.eqb_eq in E. subst k'. intros Hv. inversion Hv. auto.
  - auto.
Qed.

Lemma dict_del_In_neq {V} (k : string) (d : dict V) (k' : string) (v : V) :
  NoDup (dict_keys d) -> In (k', v) (dict_del k d) ->
  k' <> k /\ In (k', v) d.
Proof.
  induction d as [|[k1 v1] d IH]; cbn; [intros _ []|].
  intros Hnd. inversion Hnd as [|? ? Hx Hnd']; subst.
  destruct (String.eqb k k1) eqn:E; cbn.
  - apply String.eqb_eq in E. subst k1. intros Hin. split; auto.
    intros ->. apply Hx. unfold dict_keys. apply in_map_iff.
    exists (k, v). auto.
  - intros [Hin|Hin].
    + inversion Hin; subst. split; auto. intros ->.
      now rewrite String.eqb_refl in E.
    + destruct (IH Hnd' Hin); auto.
Qed.

Lemma values_In {V} (d : dict V) (v : V) :
  In v (dict_values d) -> exists k, In (k, v) d.
Proof.
  unfold dict_values. intros Hin. apply in_map_iff in Hin.
  destruct Hin as ([k v'] & Hv & Hin). cbn in Hv. subst. eauto.
Qed.



(** X4: in a registry that binds each identifier once, to a record that
    carries it, a server that has been deregistered is never returned by
    a later selection; and when every healthy server is bound to the
    deregistered identifier, the selection returns [None]. *)
Theorem deregistered_never_selected `{Builtins}
  (id : string) (loc : Coordinate) (w : World) :
  registry_ok w ->
  (forall a w', select_optimal_server loc (run (deregister_server id) w)
                = (Ok (Some a), w') ->
                server_id (heap w a) <> id) /\
  ((forall k b, In (k, b) (servers w) ->
                py_gt (health_score (heap w b)) (PyInt 50) = true ->
                k = id) ->
   fst (select_optimal_server loc (run (deregister_server id) w))
   = Ok None).
Proof.
  intros [Hnd Hent].
  assert (Hdel : forall a,
             In a (dict_values (servers (run (deregister_server id) w))) ->
             exists k, k <> id /\ In (k, a) (servers w)).
  { intros a Ha. unfold run, deregister_server, bind, get_servers in Ha.
    destruct (dict_mem id (servers w)) eqn:E; cbn in Ha.
    - apply values_In in Ha. destruct Ha as [k Hk].
      apply dict_del_In_neq in Hk; auto. exists k. tauto.
    - apply values_In in Ha. destruct Ha as [k Hk]. exists k. split; auto.
      intros ->. apply dict_mem_get_none in E.
      assert (Hin : In id (dict_keys (servers w)))
        by (unfold dict_keys; apply in_map_iff; exists (id, a); auto).
      clear - E Hin. induction (servers w) as [|[k1 v1] d IH]; cbn in *;
        [destruct Hin|].
      destruct (String.eqb id k1) eqn:E1; [discriminate|].
      destruct Hin as [->|Hin]; [now rewrite String.eqb_refl in E1|auto]. }
  assert (Hheap : forall b, heap (run (deregister_server id) w) b = heap w b).
  { intros b. unfold run, deregister_server, bind, get_servers.
    destruct (dict_mem id (servers w)); reflexivity. }
  split.
  - intros a w' Hs. apply select_in_healthy in Hs. destruct Hs as [_ Hin].
    unfold healthy_servers in Hin. apply filter_In in Hin.
    destruct Hin as [Hreg _]. destruct (Hdel a Hreg) as (k & Hk & Hin).
    destruct (Hent k a Hin) as [-> _]. exact Hk.
  - intros Honly. rewrite select_unfold. cbn [fst].
    destruct (healthy_servers (run (deregister_server id) w))
      as [|x hs] eqn:E; auto.
    assert (Hx : In x (healthy_servers (run (deregister_server id) w)))
      by (rewrite E; left; auto).
    unfold healthy_servers in Hx. apply filter_In in Hx.
    destruct Hx as [Hreg Hh]. destruct (Hdel x Hreg) as (k & Hk & Hin).
    rewrite Hheap in Hh. exfalso. apply Hk. eapply Honly; eauto.
Qed.

Lemma world3_registry_ok : registry_ok world3.
Proof.
  split.
  - change (dict_keys (servers world3)) with ["nyc"; "lax"; "sfo"]%string.
    repeat constructor; cbn; intuition discriminate.
  - intros k a Hin.
    change (servers world3)
      with [("nyc", 0); ("lax", 1); ("sfo", 2)]%string%nat in Hin.
    destruct Hin as [Hin|[Hin|[Hin|[]]]]; inversion Hin; subst;
      split; try reflexivity; cbn; lia.
Qed.

Lemma deregistered_never_selected_witness :
  server_id (heap world3 1) <> "nyc"%string.
Proof.
  apply (proj1 (@deregistered_never_selected stub_builtins "nyc"
                  (coord 40.5 (-74)) world3 world3_registry_ok)
           1%nat (run (deregister_server "nyc") world3)).
  rewrite select_unfold. vm_compute. reflexivity.
Defined.

Example select_after_deregister :
  fst (@select_optimal_server stub_builtins (coord 40.5 (-74))
         (run (deregister_server "nyc") world3)) = Ok (Some 1%nat) /\
  fst (@select_optimal_server stub_builtins (coord 40.5 (-74))
         (run (deregister_server "nyc")
            (run (deregister_server "lax")
               (run (deregister_server "sfo") world3)))) = Ok None.
Proof. split; vm_compute; reflexivity. Qed.

(** ** What the health check leaves alone *)

Lemma same_static_refl (s : ServerInfo) : same_static s s.
Proof. repeat split. Qed.

Lemma same_static_trans (s1 s2 s3 : ServerInfo) :
  same_static s1 s2 -> same_static s2 s3 -> same_static s1 s3.
Proof.
  unfold same_static. intros (A1 & A2 & A3 & A4 & A5 & A6)
    (B1 & B2 & B3 & B4 & B5 & B6).
  repeat split; congruence.
Qed.

Lemma same_static_checked (s : ServerInfo) (t : float) :
  same_static s (checked s t).
Proof.
  unfold checked. destruct (py_gt _ _); [|apply same_static_refl].
  destruct (py_sub _ _); [|apply same_static_refl]. repeat split.
Qed.

Lemma for_each_check_static (l : list ref) :
  forall w,
    fst (for_each l check_server w) = Ok tt /\
    servers (run (for_each l check_server) w) = servers w /\
    next_ref (run (for_each l check_server) w) = next_ref w /\
    clock (run (for_each l check_server) w) = clock w /\
    ticks (run (for_each l check_server) w) = (ticks w + List.length l)%nat /\
    (forall b, same_static (heap w b)
                 (heap (run (for_each l check_server) w) b)) /\
    (forall b, ~ In b l ->
               heap (run (for_each l check_server) w) b = heap w b).
Proof.
  induction l as [|x l IH]; intros w.
  - cbn. repeat split; auto.
  - destruct (check_server_spec x w) as (Hr & Hh & Hs & Hc & Hn & Ht).
    unfold run in *. cbn [for_each]. unfold bind at 1 2 3 4 5 6 7.
    destruct (check_server x w) as [r w1]. cbn [fst snd] in *. subst r.
    destruct (IH w1) as (Hr' & Hs' & Hn' & Hc' & Ht' & Hst' & Ho').
    split; [exact Hr'|]. split; [congruence|]. split; [congruence|].
    split; [congruence|]. split; [rewrite Ht', Ht; cbn [List.length]; lia|].
    split.
    + intros b. eapply same_static_trans; [|apply Hst'].
      rewrite Hh. destruct (Nat.eqb b x) eqn:E; [|apply same_static_refl].
      apply Nat.eqb_eq in E. subst b. apply same_static_checked.
    + intros b Hb. rewrite Ho' by (intros Hin; apply Hb; right; auto).
      rewrite Hh. destruct (Nat.eqb b x) eqn:E; auto.
      apply Nat.eqb_eq in E. subst. exfalso. apply Hb. left; auto.
Qed.

(** X5: any number of rounds of the health-check loop, from any state:
    no exception escapes, the registry (identifiers, bindings, order) is
    unchanged, no record is created, the clock is read once per
    registered entry and round, and in every record the identifier,
    host, port, location and both counters are as before (only
    [health_score] and [last_health_check] are ever written); records
    that are not registered are not touched. *)
Theorem health_check_frame (n : nat) (w : World) :
  fst (health_check n w) = Ok tt /\
  servers (run (health_check n) w) = servers w /\
  next_ref (run (health_check n) w) = next_ref w /\
  ticks (run (health_check n) w)
    = (ticks w + n * List.length (servers w))%nat /\
  (forall b, same_static (heap w b) (heap (run (health_check n) w) b)) /\
  (forall b, ~ In b (dict_values (servers w)) ->
             heap (run (health_check n) w) b = heap w b).
Proof.
  revert w. induction n as [|n IH]; intros w.
  - cbn. repeat split; auto.
  - destruct (for_each_check_static (dict_values (servers w)) w)
      as (Hr & Hs & Hn & _ & Ht & Hst & Ho).
    unfold run in *. cbn [health_check].
    unfold bind at 1 2 3 4 5 6, health_check_pass at 1 2 3 4 5 6.
    unfold bind at 1 2 3 4 5 6, get_servers.
    destruct (for_each (dict_values (servers w)) check_server w)
      as [r w1]. cbn [fst snd] in *. subst r.
    destruct (IH w1) as (Hr' & Hs' & Hn' & Ht' & Hst' & Ho').
    split; [exact Hr'|]. split; [congruence|]. split; [congruence|].
    split.
    { rewrite Ht', Ht, Hs. unfold dict_values. rewrite length_map. lia. }
    split.
    + intros b. eapply same_static_trans; [apply Hst|apply Hst'].
    + intros b Hb. rewrite Ho' by (rewrite Hs; auto). auto.
Qed.

(** ** Decay of the score *)

Lemma float_sub_zero (f : float) : (f - 0)%float = f.
Proof.
  apply Prim2SF_inj. rewrite sub_spec.
  change (Prim2SF 0) with (S754_zero false).
  destruct (Prim2SF f) as [s|s| |s m e]; try reflexivity;
    destruct s; reflexivity.
Qed.

Lemma float_of_int_0 : float_of_int 0 = Ok 0%float.
Proof. vm_compute. reflexivity. Qed.

Lemma py_sub_zero (h : pynum) : py_sub h (PyInt 0) = Ok h.
Proof.
  destruct h as [z|f]; cbn [py_sub].
  - now rewrite Z.sub_0_r.
  - rewrite float_of_int_0. cbn [rbind]. now rewrite float_sub_zero.
Qed.

(** X6: a visit of the health check to a record without recorded errors
    and with a positive score, more than 30 seconds after its last
    check, leaves the score exactly as it is and only moves the time of
    the last check to the current time. *)
Theorem check_without_errors_keeps_score (a : ref) (w : World) :
  error_count (heap w a) = 0%Z ->
  py_gt (health_score (heap w a)) (PyInt 0) = true ->
  py_gt (PyFloat (clock w (ticks w) - last_health_check (heap w a))%float)
    (PyInt 30) = true ->
  health_score (heap (run (check_server a) w) a) = health_score (heap w a) /\
  last_health_check (heap (run (check_server a) w) a) = clock w (ticks w).
Proof.
  intros He Hpos Hg.
  destruct (check_server_spec a w) as (_ & Hh & _).
  rewrite Hh, Nat.eqb_refl. unfold checked. rewrite Hg, He.
  change (0 * 10)%Z with 0%Z. rewrite py_sub_zero. cbn.
  unfold py_max. rewrite Hpos. auto.
Qed.

Lemma check_without_errors_keeps_score_witness :
  health_score (heap (run (check_server 1) world3_errors) 1) = PyFloat 100 /\
  last_health_check (heap (run (check_server 1) world3_errors) 1)
    = 1000%float.
Proof.
  apply (check_without_errors_keeps_score 1 world3_errors); reflexivity.
Defined.

Lemma score_decay_table : score_table_decay = true.
Proof. vm_compute. reflexivity. Qed.

Lemma py_le_trans (x y z : pynum) :
  py_le x y = true -> py_le y z = true -> py_le x z = true.
Proof.
  rewrite !py_le_val.
  destruct (mixed_compare x y) as [c1|] eqn:E1; [|discriminate].
  destruct (mixed_compare y z) as [c2|] eqn:E2;
    [|destruct c1; discriminate].
  pose proof (mixed_compare_trans _ _ _ E1 E2) as HT.
  destruct c1, c2; cbn; try discriminate; rewrite HT; reflexivity.
Qed.

Lemma py_lt_le_trans (x y z : pynum) :
  py_lt x y = true -> py_le y z = true -> py_lt x z = true.
Proof.
  rewrite !py_lt_val, !py_le_val.
  destruct (mixed_compare x y) as [c1|] eqn:E1; [|discriminate].
  destruct (mixed_compare y z) as [c2|] eqn:E2;
    [|destruct c1; discriminate].
  pose proof (mixed_compare_trans _ _ _ E1 E2) as HT.
  destruct c1, c2; cbn; try discriminate; rewrite HT; reflexivity.
Qed.

Lemma score_le_refl (h : pynum) : In h score_values -> py_le h h = true.
Proof.
  intros Hin. repeat (destruct Hin as [<-|Hin]; [vm_compute; auto|]).
  destruct Hin.
Qed.

Lemma score_step_le (h x : pynum) (e : Z) :
  In h score_values -> (0 <= e)%Z ->
  py_sub h (PyInt (e * 10)) = Ok x ->
  py_le (py_max (PyInt 0) x) h = true.
Proof.
  intros Hh He Hx. destruct (Z.le_gt_cases e 12) as [Hsmall|Hbig].
  - pose proof score_decay_table as T. unfold score_table_decay in T.
    rewrite forallb_forall in T. specialize (T h Hh).
    rewrite forallb_forall in T. specialize (T (Z.to_nat e)).
    rewrite Z2Nat.id, Hx in T by lia. apply T. apply in_seq. lia.
  - assert (Hz : py_max (PyInt 0) x = PyInt 0).
    { destruct h as [z|c].
      + assert (z = 0%Z).
        { destruct Hh as [Hh|Hh]; [now inversion Hh|].
          repeat (destruct Hh as [Hh|Hh]; [discriminate|]). destruct Hh. }
        subst z. cbn [py_sub] in Hx. injection Hx as Hx. subst x.
        unfold py_max, py_gt, py_lt.
        match goal with
        | |- context [Z.ltb ?u ?v] => destruct (Z.ltb_spec u v); [lia|]
        end.
        reflexivity.
      + cbn [py_sub] in Hx.
        destruct (float_of_int (e * 10)) as [f|ex] eqn:Hf;
          cbn [rbind] in Hx; try discriminate.
        inversion Hx; subst x. clear Hx.
        apply float_of_int_large in Hf; [|lia].
        destruct Hf as (m & e' & Hm & _ & He').
        destruct (score_float_exponent Hh) as (mh & eh & Hc & Heh).
        pose proof (large_not_lt _ _ Hm He' Hc Heh) as Hnlt.
        unfold py_max.
        destruct (py_gt (PyFloat (c - f)) (PyInt 0)) eqn:G; auto.
        apply (@elapsed_gt_lt 0) in G; [congruence|lia]. }
    rewrite Hz. apply (score_bounds Hh).
Qed.

Lemma checked_le (s : ServerInfo) (t : float) :
  record_ok s ->
  py_le (health_score (checked s t)) (health_score s) = true.
Proof.
  intros (Hs & He & _). unfold checked.
  destruct (py_gt _ _); [|now apply score_le_refl].
  destruct (py_sub _ _) as [x|ex] eqn:Hx; [|now apply score_le_refl].
  cbn. eapply score_step_le; eauto.
Qed.

Lemma for_each_check_le (l : list ref) :
  forall w, state_ok w -> score_mono w (run (for_each l check_server) w).
Proof.
  induction l as [|x l IH]; intros w Hw.
  - cbn. intros a Ha. apply score_le_refl. apply Hw; auto.
  - destruct (check_server_ok x Hw) as (H1 & _ & N1).
    destruct (check_server_spec x w) as (Hr & Hh & _).
    pose proof (IH (run (check_server x) w) H1) as M2.
    unfold run in *. cbn [for_each]. unfold bind.
    destruct (check_server x w) as [r w1]. cbn [fst snd] in *. subst r.
    intros a Ha. eapply py_le_trans; [apply M2; now rewrite N1|].
    rewrite Hh. destruct (Nat.eqb a x) eqn:E.
    + apply Nat.eqb_eq in E. subst a. apply checked_le. apply Hw; auto.
    + apply score_le_refl. apply Hw; auto.
Qed.

Lemma score_mono_same (w w' : World) :
  state_ok w -> (forall a, (a < next_ref w)%nat -> heap w' a = heap w a) ->
  score_mono w w'.
Proof.
  intros [Hrec _] Hsame a Ha. rewrite (Hsame a Ha).
  apply score_le_refl. apply Hrec; auto.
Qed.

(** X7: in a reachable state no operation raises the score of an
    existing record: the score after the operation is at most the score
    before (there is no recovery), so a record that is healthy
    afterwards was healthy before. *)
Theorem reachable_scores_never_increase `{Builtins} (o : op) (w : World) :
  reachable w -> valid_op w o ->
  forall a, (a < next_ref w)%nat ->
    py_le (health_score (heap (step o w) a)) (health_score (heap w a))
      = true /\
    (py_gt (health_score (heap (step o w) a)) (PyInt 50) = true ->
     py_gt (health_score (heap w a)) (PyInt 50) = true).
Proof.
  intros Hr Hv. pose proof (reachable_ok Hr) as Hok.
  assert (Hm : score_mono w (step o w)).
  { destruct o as [id hst prt loc|b|id| |loc| |b dreq derr]; cbn [step].
    - apply score_mono_same; auto. intros a Ha. cbn. unfold upd.
      destruct (Nat.eqb a (next_ref w)) eqn:E; auto.
      apply Nat.eqb_eq in E. lia.
    - apply score_mono_same; auto.
    - apply score_mono_same; auto. intros a Ha.
      unfold run, deregister_server, bind, get_servers.
      destruct (dict_mem id (servers w)); reflexivity.
    - unfold run, health_check_pass, bind, get_servers.
      apply (for_each_check_le (dict_values (servers w)) Hok).
    - unfold run. rewrite select_unfold. cbn [snd].
      apply score_mono_same; auto.
    - apply score_mono_same; auto.
    - intros a Ha. cbn. unfold upd. destruct (Nat.eqb a b) eqn:E.
      + apply Nat.eqb_eq in E. subst a. cbn. apply score_le_refl.
        apply Hok; auto.
      + apply score_le_refl. apply Hok; auto. }
  intros a Ha. split; [now apply Hm|].
  unfold py_gt. intros Hg. eapply py_lt_le_trans; eauto.
Qed.

Lemma reachable_scores_never_increase_witness :
  py_le (health_score (heap (@step stub_builtins OpHealthPass world_checked) 0))
    (health_score (heap world_checked 0)) = true /\
  (py_gt (health_score
            (heap (@step stub_builtins OpHealthPass world_checked) 0))
     (PyInt 50) = true ->
   py_gt (health_score (heap world_checked 0)) (PyInt 50) = true).
Proof.
  apply (@reachable_scores_never_increase stub_builtins OpHealthPass
           world_checked).
  - unfold world_checked.
    apply reach_step; [apply reach_step; [apply reach_step|]|].
    + apply reach_init.
    + exact I.
    + cbn. lia.
    + exact I.
  - exact I.
  - cbn. lia.
Defined.

(** ** Ties go to the server registered first *)

Ltac xcases :=
  cbn;
  repeat match goal with
         | |- context [Z.compare ?u ?v] => destruct (Z.compare_spec u v)
         end;
  intros; try congruence; try lia.

Lemma xcompare_lt_ge (a b c : xval) :
  xcompare a b = Lt -> xcompare c b <> Lt -> xcompare a c = Lt.
Proof. destruct a, b, c; xcases. Qed.

Lemma xcompare_eq_gt (a b c : xval) :
  xcompare a b = Eq -> xcompare c b = Gt -> xcompare a c = Lt.
Proof. destruct a, b, c; xcases. Qed.

Lemma xcompare_eq_eq (a b c : xval) :
  xcompare a b = Eq -> xcompare c b = Eq -> xcompare a c = Eq.
Proof. destruct a, b, c; xcases. Qed.

Lemma key_lt_not_lt (kr kb k : key) :
  key_num kr -> key_num kb -> key_num k ->
  key_lt kr kb = true -> key_lt k kb = false -> key_lt kr k = true.
Proof.
  intros [Dr Hr] [Db Hb] [Dk Hk]. rewrite !key_lt_val.
  unfold dcmp, hcmp, mixed_compare.
  destruct (pyval (PyFloat (fst kr))) as [dr|]; [|congruence].
  destruct (pyval (PyFloat (fst kb))) as [db|]; [|congruence].
  destruct (pyval (PyFloat (fst k))) as [dk|]; [|congruence].
  destruct (pyval (snd kr)) as [hr|]; [|congruence].
  destruct (pyval (snd kb)) as [hb|]; [|congruence].
  destruct (pyval (snd k)) as [hk|]; [|congruence].
  cbn [cmp_is].
  destruct (xcompare dr db) eqn:E1; cbn; try discriminate.
  - (* equal distances, smaller deficit *)
    destruct (xcompare hr hb) eqn:E2; try discriminate. intros _.
    destruct (xcompare dk db) eqn:E3; cbn; try discriminate.
    + rewrite (xcompare_eq_eq _ _ _ E1 E3). cbn.
      destruct (xcompare hk hb) eqn:E4; try discriminate; intros _.
      * assert (E5 : xcompare hk hb <> Lt) by congruence.
        now rewrite (xcompare_lt_ge _ _ _ E2 E5).
      * assert (E5 : xcompare hk hb <> Lt) by congruence.
        now rewrite (xcompare_lt_ge _ _ _ E2 E5).
    + intros _. now rewrite (xcompare_eq_gt _ _ _ E1 E3).
  - intros _.
    destruct (xcompare dk db) eqn:E3; cbn.
    + intros _. assert (E5 : xcompare dk db <> Lt) by congruence.
      now rewrite (xcompare_lt_ge _ _ _ E1 E5).
    + discriminate.
    + intros _. assert (E5 : xcompare dk db <> Lt) by congruence.
      now rewrite (xcompare_lt_ge _ _ _ E1 E5).
Qed.

Section MinFirst.
Context {A : Type} (kf : A -> result key).

Lemma min_loop_first (rest : list A) :
  forall best bk r,
    kf best = Ok bk ->
    (forall x k, In x (best :: rest) -> kf x = Ok k -> key_num k) ->
    min_loop kf best bk rest = Ok r ->
    r = best \/
    exists l1 l2 kr,
      rest = l1 ++ r :: l2 /\ kf r = Ok kr /\ key_lt kr bk = true /\
      forall x, In x l1 -> exists kx, kf x = Ok kx /\ key_lt kr kx = true.
Proof.
  induction rest as [|x rest IH]; cbn [min_loop]; intros best bk r Hb Hnum Hr.
  - inversion Hr. auto.
  - destruct (kf x) as [k|e] eqn:Hx; cbn [rbind] in Hr; try discriminate.
    assert (Nk : key_num k) by (apply (Hnum x k); [right; left|]; auto).
    assert (Nb : key_num bk) by (apply (Hnum best bk); [left|]; auto).
    destruct (key_lt k bk) eqn:Hlt.
    + destruct (IH x k r Hx) as [->|(l1 & l2 & kr & -> & Hkr & Hrk & Hall)];
        auto.
      * intros y ky Hy. apply Hnum. destruct Hy; [right; left|right; right];
          auto.
      * right. exists [], rest, k. repeat split; auto. intros y [].
      * right. exists (x :: l1), l2, kr. repeat split; auto.
        -- eapply key_lt_trans; eauto.
        -- intros y [<-|Hy]; eauto.
    + destruct (IH best bk r Hb) as [->|(l1 & l2 & kr & -> & Hkr & Hrk & Hall)];
        auto.
      * intros y ky Hy. apply Hnum. destruct Hy; [left|right; right]; auto.
      * right. exists (x :: l1), l2, kr. repeat split; auto.
        intros y [<-|Hy]; eauto.
        exists k. split; auto. apply key_lt_not_lt with (kb := bk); auto.
        apply (Hnum r kr); auto. right. right. apply in_or_app.
        right. left. auto.
Qed.
End MinFirst.

(** X8: when the distances of the healthy servers are numbers (not NaN)
    and the selection returns a server, every healthy server that comes
    before it in the order of the registry has a strictly greater key:
    among servers with the smallest key the one registered first wins. *)
Theorem select_first_minimal `{Builtins}
  (loc : Coordinate) (w w' : World) (a : ref) :
  select_optimal_server loc w = (Ok (Some a), w') ->
  (forall b d, In b (healthy_servers w) ->
               calculate_network_distance loc (location (heap w b)) = Ok d ->
               (d =? d)%float = true) ->
  exists l1 l2 ka,
    healthy_servers w = l1 ++ a :: l2 /\
    selection_key loc (heap w a) = Ok ka /\
    forall b, In b l1 ->
              exists kb, selection_key loc (heap w b) = Ok kb /\
                         key_lt ka kb = true.
Proof.
  intros Hs Hnan.
  assert (Hnum : forall x k, In x (healthy_servers w) ->
                             selection_key loc (heap w x) = Ok k ->
                             key_num k).
  { intros x k Hx Hk. apply selection_key_inv in Hk. destruct Hk as [Hd Hh].
    split.
    - apply float_self_eq_number. eapply Hnan; eauto.
    - apply (@healthy_key_number (heap w x)); auto.
      unfold healthy_servers in Hx. apply filter_In in Hx. tauto. }
  rewrite select_unfold in Hs. apply (f_equal fst) in Hs. cbn [fst] in Hs.
  destruct (healthy_servers w) as [|x rest] eqn:E; [discriminate|].
  cbn [min_by] in Hs.
  destruct (selection_key loc (heap w x)) as [k|e] eqn:Hx;
    cbn [rbind] in Hs; try discriminate.
  destruct (min_loop (fun a => selection_key loc (heap w a)) x k rest)
    as [r|e] eqn:Hl; cbn [rbind] in Hs; try discriminate.
  inversion Hs; subst r. clear Hs.
  destruct (@min_loop_first ref (fun a => selection_key loc (heap w a))
              rest x k a Hx Hnum Hl)
    as [->|(l1 & l2 & ka & -> & Hka & Hlt & Hall)].
  - exists [], rest, k. repeat split; auto. intros b [].
  - exists (x :: l1), l2, ka. repeat split; auto.
    intros b [<-|Hb]; eauto.
Qed.

Lemma select_first_minimal_witness :
  exists l1 l2 ka,
    healthy_servers world3 = l1 ++ 2%nat :: l2 /\
    @selection_key stub_builtins (coord 37 (-122)) (heap world3 2) = Ok ka /\
    forall b, In b l1 ->
              exists kb,
                @selection_key stub_builtins (coord 37 (-122)) (heap world3 b)
                  = Ok kb /\
                key_lt ka kb = true.
Proof.
  apply (@select_first_minimal stub_builtins (coord 37 (-122))
           world3 world3 2%nat).
  - rewrite select_unfold. vm_compute. reflexivity.
  - intros b d Hb.
    change (healthy_servers world3) with [0; 1; 2]%nat in Hb.
    destruct Hb as [<-|[<-|[<-|[]]]]; vm_compute; intros Hd;
      inversion Hd; reflexivity.
Defined.

(** Two servers at the same place with the same score: the one
    registered first is selected. *)
Example select_tie :
  fst (@select_optimal_server stub_builtins (coord 40.5 (-74))
         (run (register_new_record "twin" "10.0.0.4" 8080 new_york) world3))
  = Ok (Some 0%nat).
Proof. vm_compute. reflexivity. Qed.

(** ** Missing coordinates *)

Lemma getitem_ok {V} (d : dict V) (k : string) (v : V) :
  getitem d k = Ok v -> dict_mem k d = true.
Proof.
  unfold getitem, dict_mem. destruct (dict_get k d); [auto|discriminate].
Qed.

Lemma getitem_missing {V} (d : dict V) (k : string) :
  dict_mem k d = false -> getitem d k = Raise (KeyError k).
Proof.
  unfold getitem, dict_mem. destruct (dict_get k d); [discriminate|auto].
Qed.

Lemma rbind_ok {A B} (r : result A) (k : A -> result B) (b : B) :
  rbind r k = Ok b -> exists a, r = Ok a /\ k a = Ok b.
Proof. destruct r as [a|e]; cbn; [eauto|discriminate]. Qed.

(** X9: [calculate_network_distance] returns a value only when both
    locations have a ["lat"] and a ["lon"] entry; when the first location
    has no ["lat"], it raises [KeyError("lat")] before any arithmetic,
    whatever the second location is. *)
Theorem distance_needs_coordinates `{Builtins} (loc1 loc2 : Coordinate) :
  (forall d, calculate_network_distance loc1 loc2 = Ok d ->
             dict_mem "lat" loc1 = true /\ dict_mem "lon" loc1 = true /\
             dict_mem "lat" loc2 = true /\ dict_mem "lon" loc2 = true) /\
  (dict_mem "lat" loc1 = false ->
   calculate_network_distance loc1 loc2 = Raise (KeyError "lat")).
Proof.
  split.
  - intros d Hd. unfold calculate_network_distance in Hd.
    apply rbind_ok in Hd. destruct Hd as (v1 & G1 & Hd).
    apply rbind_ok in Hd. destruct Hd as (lat1 & _ & Hd).
    apply rbind_ok in Hd. destruct Hd as (v2 & G2 & Hd).
    apply rbind_ok in Hd. destruct Hd as (lon1 & _ & Hd).
    apply rbind_ok in Hd. destruct Hd as (v3 & G3 & Hd).
    apply rbind_ok in Hd. destruct Hd as (lat2 & _ & Hd).
    apply rbind_ok in Hd. destruct Hd as (v4 & G4 & Hd).
    repeat split; eapply getitem_ok; eauto.
  - intros Hm. unfold calculate_network_distance.
    now rewrite (getitem_missing _ _ Hm).
Qed.

Lemma distance_needs_coordinates_witness :
  @calculate_network_distance stub_builtins only_lon new_york
  = Raise (KeyError "lat").
Proof.
  apply (proj2 (@distance_needs_coordinates stub_builtins only_lon new_york)).
  reflexivity.
Defined.

(** X10: a selection for a client location without ["lat"] raises
    [KeyError("lat")] as soon as one registered server is healthy, and
    returns [None] (the missing entry goes unnoticed) when none is. *)
Theorem select_client_without_lat `{Builtins} (loc : Coordinate) (w : World) :
  dict_mem "lat" loc = false ->
  fst (select_optimal_server loc w) =
  match healthy_servers w with
  | [] => Ok None
  | _ :: _ => Raise (KeyError "lat")
  end.
Proof.
  intros Hm. rewrite select_unfold. cbn [fst].
  destruct (healthy_servers w) as [|x hs]; auto.
  cbn [min_by]. unfold selection_key at 1, calculate_network_distance.
  now rewrite (getitem_missing _ _ Hm).
Qed.

Lemma select_client_without_lat_witness :
  fst (@select_optimal_server stub_builtins only_lon world3)
  = Raise (KeyError "lat").
Proof.
  apply (@select_client_without_lat stub_builtins only_lon world3).
  reflexivity.
Defined.

(** ** A new record *)

(** X11: [ContentServer.__init__] as written raises
    [AttributeError("host")] and leaves the registry and the records as
    they are.  Building the record from a given host and port and
    registering it never raises; afterwards the identifier resolves to a
    new record with score [100.0], no requests, no errors and time of last
    check [0]; no record that existed before is modified; and a selection
    no longer answers [None]. *)
Theorem new_record_is_selectable `{Builtins}
  (id hst : string) (prt : Z) (loc client : Coordinate) (w : World) :
  ContentServer_init id loc w = (Raise (AttributeError "host"), w) /\
  fst (register_new_record id hst prt loc w) = Ok tt /\
  get_server id (run (register_new_record id hst prt loc) w)
    = Some (default_server_info id hst prt loc) /\
  (forall b, b <> next_ref w ->
     heap (run (register_new_record id hst prt loc) w) b = heap w b) /\
  fst (select_optimal_server client
         (run (register_new_record id hst prt loc) w)) <> Ok None.
Proof.
  set (w1 := run (register_new_record id hst prt loc) w).
  assert (Hh : forall b, heap w1 b
               = upd (heap w) (next_ref w)
                   (default_server_info id hst prt loc) b) by reflexivity.
  assert (Hs : servers w1 = dict_set id (next_ref w) (servers w)).
  { unfold w1, run, register_new_record, bind, new_obj, register_server,
      bind, deref, get_servers, put_servers.
    cbn [snd servers heap]. now rewrite upd_same. }
  split; [reflexivity|].
  split; [reflexivity|]. split; [|split].
  - unfold get_server. rewrite Hs, dict_get_set_same. cbn [option_map].
    now rewrite Hh, upd_same.
  - intros b Hb. rewrite Hh. now apply upd_other.
  - rewrite select_unfold. cbn [fst].
    assert (Hin : In (next_ref w) (healthy_servers w1)).
    { unfold healthy_servers. apply filter_In. split.
      - rewrite Hs. unfold dict_values. apply in_map_iff.
        exists (id, next_ref w). split; auto.
        apply dict_get_In. apply dict_get_set_same.
      - rewrite Hh, upd_same. reflexivity. }
    destruct (healthy_servers w1) as [|x hs]; [destruct Hin|].
    intros Hn. apply min_by_none in Hn. discriminate.
Qed.

(** ** Unhealthy servers do not matter to the selection *)

Lemma filter_values_del (P : ref -> bool) (id : string) (d : dict ref) :
  (forall a, dict_get id d = Some a -> P a = false) ->
  filter P (dict_values (dict_del id d)) = filter P (dict_values d).
Proof.
  unfold dict_values. induction d as [|[k v] d IH]; cbn; auto.
  destruct (String.eqb id k) eqn:E; cbn.
  - intros Hu. now rewrite (Hu v eq_refl).
  - intros Hu. now rewrite IH.
Qed.

(** X12: deregistering a server whose score is not above 50 does not
    change the answer of any selection. *)
Theorem deregister_unhealthy_keeps_selection `{Builtins}
  (id : string) (loc : Coordinate) (w : World) :
  (forall a, dict_get id (servers w) = Some a ->
             py_gt (health_score (heap w a)) (PyInt 50) = false) ->
  fst (select_optimal_server loc (run (deregister_server id) w))
  = fst (select_optimal_server loc w).
Proof.
  intros Hu. rewrite !select_unfold. cbn [fst].
  unfold run, deregister_server, bind, get_servers.
  destruct (dict_mem id (servers w)); cbn [snd]; auto.
  unfold healthy_servers, put_servers. cbn [snd servers heap].
  now rewrite (filter_values_del (fun a => healthy (heap w a)) id
                 (servers w) Hu).
Qed.

Lemma deregister_unhealthy_keeps_selection_witness :
  fst (@select_optimal_server stub_builtins (coord 40.5 (-74))
         (run (deregister_server "nyc")
            (run health_check_pass world3_errors)))
  = fst (@select_optimal_server stub_builtins (coord 40.5 (-74))
           (run health_check_pass world3_errors)).
Proof.
  apply (@deregister_unhealthy_keeps_selection stub_builtins "nyc"
           (coord 40.5 (-74)) (run health_check_pass world3_errors)).
  intros a Ha. vm_compute in Ha. inversion Ha; subst a. reflexivity.
Defined.

(** ** The lower bound of a stored score *)

Lemma py_max_zero_nonneg (x : pynum) :
  py_le (PyInt 0) (py_max (PyInt 0) x) = true.
Proof.
  unfold py_max, py_gt. destruct (py_lt (PyInt 0) x) eqn:E.
  - rewrite py_le_val. rewrite py_lt_val in E.
    destruct (mixed_compare (PyInt 0) x) as [[]|]; try discriminate.
    reflexivity.
  - reflexivity.
Qed.

(** X13: whatever a record holds (a negative score, an infinity, a NaN,
    a negative error count), a visit of the health check either leaves
    its score as it is or stores a score that is at least [0]. *)
Theorem check_server_score_nonneg (a : ref) (w : World) :
  health_score (heap (run (check_server a) w) a) = health_score (heap w a) \/
  py_le (PyInt 0) (health_score (heap (run (check_server a) w) a)) = true.
Proof.
  destruct (check_server_spec a w) as (_ & Hh & _).
  rewrite Hh, Nat.eqb_refl. unfold checked.
  destruct (py_gt _ _); auto. destruct (py_sub _ _); auto.
  right. cbn. apply py_max_zero_nonneg.
Qed.
